(** * kd_mass_demo: a round-robin multi-agent simulation

    A shallow embedding of [utils.py], [agent.py] and [app.py], and the
    properties of the retrieval heuristic, of the agents and of the
    simulation loop proved over it.

    Conventions of the embedding.
    - A Python [str] is the list of its Unicode code points.  String
      literals of the source are written as Rocq (UTF-8) string literals and
      decoded by [py].
    - A Python [dict] of the request JSON is a [gmap] from keys to text
      values; the request fields are typed as section 6 of the specification
      types them (text fields hold text, [turns] holds an integer).
    - The hosted chat-completion client and the file system are external:
      the client is a state-passing function on an abstract service state,
      the file system a tree with a path resolution function.
    - [for] loops are left folds over the iterated list; objects mutated in
      place (the agents of a run) live in a list indexed by their position. *)

From Stdlib Require Import ZArith NArith QArith Ascii String.
From stdpp Require Import base option list sorting gmap sets pretty.

Set Warnings "-register-all".
Local Open Scope Z_scope.

(** ** Python text *)

Module PyStr.

(** A character is its code point, a string the list of its characters. *)
Abbreviation char := N (only parsing).
Abbreviation str := (list N) (only parsing).

(** The bytes of a literal of the source file. *)
Fixpoint bytes_of (s : string) : list N :=
  match s with
  | EmptyString => []
  | String a s' => N_of_ascii a :: bytes_of s'
  end.

(** UTF-8 decoding of well-formed input (the source file is UTF-8). *)
Fixpoint utf8_decode (bs : list N) : str :=
  match bs with
  | [] => []
  | b :: r =>
      if (b <? 0x80)%N then b :: utf8_decode r
      else if (b <? 0xE0)%N then
        match r with
        | c1 :: r1 => ((b - 0xC0) * 64 + (c1 - 0x80))%N :: utf8_decode r1
        | _ => []
        end
      else if (b <? 0xF0)%N then
        match r with
        | c1 :: c2 :: r2 =>
            ((b - 0xE0) * 4096 + (c1 - 0x80) * 64 + (c2 - 0x80))%N
              :: utf8_decode r2
        | _ => []
        end
      else
        match r with
        | c1 :: c2 :: c3 :: r3 =>
            ((b - 0xF0) * 262144 + (c1 - 0x80) * 4096
             + (c2 - 0x80) * 64 + (c3 - 0x80))%N :: utf8_decode r3
        | _ => []
        end
  end.

Definition py (s : string) : str := utf8_decode (bytes_of s).

(** [str.isspace] on one character: the code points CPython's
    [_PyUnicode_IsWhitespace] accepts. *)
Definition isspace (c : char) : bool :=
  ((0x09 <=? c) && (c <=? 0x0D) || (0x1C <=? c) && (c <=? 0x20)
   || (c =? 0x85) || (c =? 0xA0) || (c =? 0x1680)
   || (0x2000 <=? c) && (c <=? 0x200A)
   || (c =? 0x2028) || (c =? 0x2029) || (c =? 0x202F) || (c =? 0x205F)
   || (c =? 0x3000))%N.

Fixpoint lstrip (s : str) : str :=
  match s with
  | c :: s' => if isspace c then lstrip s' else s
  | [] => []
  end.

Definition rstrip (s : str) : str := rev (lstrip (rev s)).

(** [s.strip()] *)
Definition strip (s : str) : str := rstrip (lstrip s).

(** [s.split()]: maximal runs of non-whitespace characters.  [cur] holds
    the run being read, most recent character first. *)
Fixpoint split_from (cur : str) (s : str) : list str :=
  match s with
  | [] => match cur with [] => [] | _ => [rev cur] end
  | c :: s' =>
      if isspace c then
        match cur with
        | [] => split_from [] s'
        | _ => rev cur :: split_from [] s'
        end
      else split_from (c :: cur) s'
  end.

Definition split (s : str) : list str := split_from [] s.

Fixpoint startswith (s t : str) {struct t} : bool :=
  match t, s with
  | [], _ => true
  | _ :: _, [] => false
  | a :: t', b :: s' => (a =? b)%N && startswith s' t'
  end.

(** [t in d]: [t] occurs in [d] as a contiguous run of characters. *)
Fixpoint contains (d t : str) : bool :=
  startswith d t || match d with [] => false | _ :: d' => contains d' t end.

(** [sep.join(parts)] *)
Fixpoint join (sep : str) (parts : list str) : str :=
  match parts with
  | [] => []
  | [p] => p
  | p :: ps => p ++ sep ++ join sep ps
  end.

(** [str(z)] of an integer, as an f-string formats it. *)
Definition str_of_int (z : Z) : str := py (pretty z).

(** ASCII case folding.  The loader only asks whether [ext.lower()] is one
    of [.txt], [.md], [.log]; no character other than the ASCII capitals
    has one of the letters of these three as its lower-case form, so the
    answer is the same as with [s.lower()]. *)
Definition lower_char (c : char) : char :=
  if ((0x41 <=? c) && (c <=? 0x5A))%N then (c + 0x20)%N else c.

Definition lower (s : str) : str := lower_char <$> s.

(** [bool(s)]: a string is truthy when it is not empty. *)
Definition truthy (s : str) : bool :=
  match s with [] => false | _ => true end.

End PyStr.
Import PyStr.

(** ** utils.py *)

(** *** The chat-completion client *)

(** One entry of a chat transcript: [{"role": ..., "content": ...}]. *)
Record message := Message { role : str; content : str }.

(** What [client.chat.completions.create(...)] followed by
    [.choices[0].message.content] does: it returns a text, or some exception
    [e] is raised on the way, of which only [repr(e)] is ever used. *)
Inductive outcome :=
| Completion (text : str)
| Raised (repr_e : str).

(** The client: a model name, a temperature, the transcript, and the state
    of the service before and after the call. *)
Definition client (W : Type) : Type :=
  str → Q → list message → W → outcome * W.

Section call_llm.
Context {W : Type} (create : client W).

(** [call_llm(messages, model, temperature)]: the [try] body returns the
    completion, the [except Exception] branch returns the error notice. *)
Definition call_llm_with (model : str) (temperature : Q)
    (messages : list message) (w : W) : str * W :=
  match create model temperature messages w with
  | (Completion text, w') => (text, w')
  | (Raised repr_e, w') => (py "[LLM 调用出错：" ++ repr_e ++ py "]", w')
  end.

(** The call with the default arguments, as [Agent.act] makes it. *)
Definition call_llm : list message → W → str * W :=
  call_llm_with (py "qwen-plus") (3 # 10)%Q.
End call_llm.

(** *** The file system *)

(** Reading a file with [open(path, "r", encoding="utf-8", errors="ignore")]
    and [f.read()]: the decoded text, or an exception [e], of which [str(e)]
    is used. *)
Inductive read_result :=
| ReadText (text : str)
| ReadError (str_e : str).

Inductive fnode :=
| File (r : read_result)
| Folder (entries : list (str * fnode)).

Record FileSystem := {
  expanduser : str → str;           (* os.path.expanduser *)
  resolve : str → option fnode      (* what a path names, if anything *)
}.

(** [os.path.isdir] *)
Definition isdir (fs : FileSystem) (path : str) : bool :=
  match resolve fs path with
  | Some (Folder _) => true
  | _ => false
  end.

(** [os.path.join(a, b)] of [posixpath], for two components. *)
Definition path_join (a b : str) : str :=
  if startswith b (py "/") then b
  else if negb (truthy a) || startswith (rev a) (py "/") then a ++ b
  else a ++ py "/" ++ b.

Definition subfolders (entries : list (str * fnode)) : list str :=
  omap (λ e, match e.2 with Folder _ => Some e.1 | File _ => None end) entries.

Definition plain_files (entries : list (str * fnode))
  : list (str * read_result) :=
  omap (λ e, match e.2 with File r => Some (e.1, r) | Folder _ => None end)
       entries.

(** [os.walk(top)], top-down: the triple of the folder itself, then the
    walks of its sub-folders in listing order.  Each file name comes with the
    outcome of reading that file. *)
Fixpoint walk (top : str) (node : fnode)
  : list (str * list str * list (str * read_result)) :=
  match node with
  | File _ => []
  | Folder entries =>
      (top, subfolders entries, plain_files entries)
        :: (fix walk_entries (es : list (str * fnode)) :=
              match es with
              | [] => []
              | (nm, sub) :: es' =>
                  walk (path_join top nm) sub ++ walk_entries es'
              end) entries
  end.

(** The extension that [os.path.splitext] returns as second component: from
    the last dot of the last path component, unless only dots precede it.
    [ext] is the extension read so far, [seen] tells whether a character
    other than a dot was read in the current component. *)
Fixpoint splitext_from (seen : bool) (ext : option str) (p : str) : str :=
  match p with
  | [] => default [] ext
  | c :: p' =>
      if (c =? 0x2F)%N then splitext_from false None p'
      else if (c =? 0x2E)%N then
        splitext_from seen (if seen then Some [c] else ext) p'
      else splitext_from true ((λ e, e ++ [c]) <$> ext) p'
  end.

Definition splitext_ext (p : str) : str := splitext_from false None p.

Definition exts : list str := [py ".txt"; py ".md"; py ".log"].

Definition in_exts (ext : str) : bool := bool_decide (ext ∈ exts).

(** The body of the inner loop of [load_text_files_from_folder]. *)
Definition load_file (root : str) (docs : list str)
    (file : str * read_result) : list str :=
  let '(fname, r) := file in
  if negb (in_exts (lower (splitext_ext fname))) then docs
  else
    let full_path := path_join root fname in
    match r with
    | ReadText raw =>
        let text := strip raw in
        if truthy text then docs ++ [py "【文件：" ++ fname ++ py "】
" ++ text]
        else docs
    | ReadError str_e =>
        docs ++ [py "【读取失败：" ++ full_path ++ py "】" ++ str_e]
    end.

(** [os.walk(path)] on the file system: nothing when the path names no
    folder. *)
Definition os_walk (fs : FileSystem) (path : str)
  : list (str * list str * list (str * read_result)) :=
  match resolve fs path with
  | Some node => walk path node
  | None => []
  end.

Definition load_text_files_from_folder (fs : FileSystem) (folder_path : str)
  : list str :=
  if negb (truthy folder_path) then []
  else
    let folder_path := expanduser fs folder_path in
    if negb (isdir fs folder_path) then []
    else
      foldl (λ docs '(root, _, files), foldl (load_file root) docs files)
            [] (os_walk fs folder_path).

(** *** Keyword retrieval *)

(** [l[:k]] of a Python list: a negative [k] counts from the end. *)
Definition slice_to {A} (l : list A) (k : Z) : list A :=
  if 0 <=? k then take (Z.to_nat k) l
  else take (length l - Z.to_nat (- k))%nat l.

(** [l.sort(key=key, reverse=True)].  Python's sort is stable, also with
    [reverse=True]: the result is in descending order of [key] and elements
    of equal key keep their relative order.  These two properties fix the
    result, so any stable sort computes it; this one inserts the elements one
    by one, from the last to the first, each before the first element whose
    key is not greater. *)
Fixpoint insert_desc {A} (key : A → Z) (x : A) (l : list A) : list A :=
  match l with
  | [] => [x]
  | y :: l' =>
      if key x <? key y then y :: insert_desc key x l' else x :: y :: l'
  end.

Definition sort_desc {A} (key : A → Z) (l : list A) : list A :=
  foldr (insert_desc key) [] l.

(** The inner loop over [q_tokens]: one point for every token of the set
    that is not empty and occurs in [d]. *)
Definition score_of (q_tokens : gset str) (d : str) : Z :=
  foldl (λ score t, if truthy t && contains d t then score + 1 else score)
        0 (elements q_tokens).

(** The loop over [docs]: the documents of positive score, with the score. *)
Definition score_docs (q_tokens : gset str) (docs : list str)
  : list (Z * str) :=
  foldl (λ scored d,
           let score := score_of q_tokens d in
           if 0 <? score then scored ++ [(score, d)] else scored)
        [] docs.

Definition simple_keyword_retrieval (docs : list str) (query : str)
    (top_k : Z) : list str :=
  if negb (bool_decide (docs ≠ [])) || negb (truthy query) then []
  else
    let q_tokens : gset str := list_to_set (split query) in
    let scored := score_docs q_tokens docs in
    if bool_decide (scored = []) then slice_to docs top_k
    else
      let scored := sort_desc fst scored in
      snd <$> slice_to scored top_k.

(** ** agent.py *)

Record AgentConfig := {
  name : str;
  short_name : str;
  role_description : str;
  strategic_preferences : str;
  knowledge : str;
  knowledge_mode : str;
  knowledge_folder : str
}.

Record Agent := {
  config : AgentConfig;
  history : list message;
  docs : list str
}.

(** [Agent.__init__]: an empty history, and the knowledge base, inline
    knowledge first, then the documents of the folder. *)
Definition Agent_init (fs : FileSystem) (config : AgentConfig) : Agent :=
  let docs := [] in
  let docs :=
    if truthy (knowledge config) then docs ++ [knowledge config] else docs in
  let docs :=
    if bool_decide (knowledge_mode config = py "folder")
       && truthy (knowledge_folder config)
    then docs ++ load_text_files_from_folder fs (knowledge_folder config)
    else docs in
  {| config := config; history := []; docs := docs |}.

(** [Agent._build_system_prompt] *)
Definition _build_system_prompt (self : Agent) : str :=
  strip
    (py "
你是一名战略博弈推演系统中的智能体，代表的对象为："
     ++ name (config self)
     ++ py "（代号："
     ++ short_name (config self)
     ++ py "）。

【身份与角色】
"
     ++ role_description (config self)
     ++ py "

【战略偏好与目标】
"
     ++ strategic_preferences (config self)
     ++ py "

【内联背景知识（仅供推理，不要逐条复述）】
"
     ++ knowledge (config self)
     ++ py "

【注意】
- 如果配置了外部知识库目录，你在推理时也会看到额外检索到的片段。
- 你要从“"
     ++ name (config self)
     ++ py "”的立场进行思考和表态，不要扮演第三方评论员。
- 回答时请专注于给出本方在当前局势下的策略立场与行动建议。
- 用简洁中文表达，可附带 1–2 句推理说明，但不要长篇论文式分析。
- 不要替其他主体发言，不要写剧本式对话。
        ").

(** [Agent._retrieve_for_round] *)
Definition _retrieve_for_round (self : Agent) (global_context : str) : str :=
  if negb (bool_decide (docs self ≠ [])) then []
  else
    let top_docs := simple_keyword_retrieval (docs self) global_context 3 in
    if negb (bool_decide (top_docs ≠ [])) then []
    else
      let joined := join (py "

------

") top_docs in
      py "【以下是与你方相关的检索到的背景材料片段（仅供内部推理，不要直接照抄原文）：】
" ++ joined.

(** The request block of [Agent.act] (step 4 of the method). *)
Definition user_content_of (global_context kb_text : str) : str :=
  let user_content :=
    py "【当前多方博弈局势与其他主体近期动态】
" ++ global_context ++ py "

" in
  let user_content :=
    if truthy kb_text then user_content ++ kb_text ++ py "

" else user_content in
  user_content
    ++ py "请基于上述局势以及你所代表主体的利益和偏好，"
    ++ py "给出你方在本轮的策略立场与行动建议。".

Section act.
Context {W : Type} (create : client W).

(** [Agent.act]: the reply, the agent after the call (its history is
    extended in place), and the state of the service after the call. *)
Definition act (self : Agent) (global_context : str) (w : W)
  : str * Agent * W :=
  let messages := [] in
  let messages :=
    messages ++ [Message (py "system") (_build_system_prompt self)] in
  let messages := messages ++ history self in
  let kb_text := _retrieve_for_round self global_context in
  let user_content := user_content_of global_context kb_text in
  let messages := messages ++ [Message (py "user") user_content] in
  let '(reply, w') := call_llm create messages w in
  (reply,
   {| config := config self;
      history := history self ++ [Message (py "assistant") reply];
      docs := docs self |},
   w').
End act.

(** ** app.py *)

(** The values handed to [json.dumps] and [jsonify]. *)
Inductive json :=
| JStr (s : str)
| JInt (z : Z)
| JObj (fields : list (str * json)).

(** A [msg] dictionary: [{"turn": ..., "speaker": ..., "content": ...}]. *)
Record msg := { turn : Z; speaker : str; reply_text : str }.

Definition json_of_msg (m : msg) : json :=
  JObj [(py "turn", JInt (turn m)); (py "speaker", JStr (speaker m));
        (py "content", JStr (reply_text m))].

(** The objects serialized into the streamed lines: one line is
    [json.dumps(obj, ensure_ascii=False) + "\n"]. *)
Definition message_chunk (m : msg) : json :=
  JObj [(py "type", JStr (py "message")); (py "data", json_of_msg m)].

Definition done_chunk (total_messages : Z) : json :=
  JObj [(py "type", JStr (py "done"));
        (py "data", JObj [(py "total_messages", JInt total_messages)])].

(** [d.get(key, dflt)] *)
Definition dict_get (d : gmap str str) (key dflt : str) : str :=
  default dflt (d !! key).

(** [build_agents_from_request] *)
Definition build_agents_from_request (fs : FileSystem)
    (agents_data : list (gmap str str)) : list Agent :=
  foldl (λ agents a,
           let name := strip (dict_get a (py "name") []) in
           if negb (truthy name) then agents
           else
             let cfg :=
               {| name := name;
                  short_name := name;
                  role_description := dict_get a (py "role") [];
                  strategic_preferences :=
                    dict_get a (py "strategic_preferences") [];
                  knowledge := dict_get a (py "knowledge") [];
                  knowledge_mode := dict_get a (py "knowledge_mode") (py "inline");
                  knowledge_folder := dict_get a (py "knowledge_folder") [] |} in
             agents ++ [Agent_init fs cfg])
        [] agents_data.

(** The text appended to the global context after a turn. *)
Definition turn_entry (m : msg) : str :=
  py "

[第" ++ str_of_int (turn m) ++ py "轮 " ++ speaker m ++ py " 发言]: "
     ++ reply_text m.

(** The initial global context. *)
Definition scenario_line (scenario : str) : str :=
  if truthy scenario then py "场景描述：" ++ scenario
  else py "场景描述：无（前端未提供）".

(** The request body, [request.get_json(force=True)]: a key that is absent
    is [None]. *)
Record request := {
  req_scenario : option str;
  req_turns : option Z;
  req_agents : option (list (gmap str str))
}.

(** The two ways [simulate_stream] returns. *)
Inductive response :=
| JsonStatus (body : json) (status : Z)   (* jsonify(...), status *)
| Streamed (lines : list json).           (* Response(generate(), ...) *)

(** The variables of [generate], the agents it closes over, and the state of
    the service. *)
Record run_state (W : Type) := RunState {
  agents : list Agent;
  messages_log : list msg;
  global_context : str;
  yielded : list json;
  world : W
}.
Arguments RunState {W}.
Arguments agents {W}.
Arguments messages_log {W}.
Arguments global_context {W}.
Arguments yielded {W}.
Arguments world {W}.

Section simulate.
Context {W : Type} (create : client W).

(** The body of the inner loop, for the agent at position [i]. *)
Definition turn_body (turn_idx : Z) (st : run_state W) (i : nat)
  : run_state W :=
  match agents st !! i with
  | None => st
  | Some agent =>
      let '(reply, agent', w') := act create agent (global_context st) (world st) in
      let m := {| turn := turn_idx;
                  speaker := name (config agent);
                  reply_text := reply |} in
      {| agents := <[i := agent']> (agents st);
         messages_log := messages_log st ++ [m];
         global_context := global_context st ++ turn_entry m;
         yielded := yielded st ++ [message_chunk m];
         world := w' |}
  end.

(** [for agent in agents: ...] *)
Definition round_body (st : run_state W) (t : Z) : run_state W :=
  let turn_idx := t + 1 in
  foldl (turn_body turn_idx) st (seq 0 (length (agents st))).

(** [for t in range(turns): ...] *)
Definition run_rounds (turns : Z) (st : run_state W) : run_state W :=
  foldl round_body st (seqZ 0 turns).

Definition initial_state (scenario : str) (agent_list : list Agent) (w : W)
  : run_state W :=
  {| agents := agent_list;
     messages_log := [];
     global_context := scenario_line scenario;
     yielded := [];
     world := w |}.

(** [generate()], run to its end.  Every operation of the [try] body is
    total here ([call_llm] has handled what the client raised), so the
    [except] branch has nothing to handle and the last line is the done
    line. *)
Definition generate (scenario : str) (turns : Z) (agent_list : list Agent)
    (w : W) : run_state W :=
  let st := run_rounds turns (initial_state scenario agent_list w) in
  {| agents := agents st;
     messages_log := messages_log st;
     global_context := global_context st;
     yielded := yielded st ++ [done_chunk (Z.of_nat (length (messages_log st)))];
     world := world st |}.

(** [simulate_stream], with the response body consumed to its end. *)
Definition simulate_stream (fs : FileSystem) (data : request) (w : W)
  : response * W :=
  let scenario := strip (default [] (req_scenario data)) in
  let turns := default 3 (req_turns data) in
  let agents_data := default [] (req_agents data) in
  let agents := build_agents_from_request fs agents_data in
  if negb (bool_decide (agents ≠ [])) then
    (JsonStatus (JObj [(py "error", JStr (py "No valid agents provided."))]) 400,
     w)
  else
    let st := generate scenario turns agents w in
    (Streamed (yielded st), world st).
End simulate.

(** ** Vocabulary of the properties *)

(** [t] occurs in [d]: some characters, then [t], then the rest. *)
Definition occurs (t d : str) : Prop := ∃ pre post, d = pre ++ t ++ post.

(** The number of distinct tokens of the query that occur in a document. *)
Definition match_count (query d : str) : nat :=
  length (filter (λ t, contains d t = true) (remove_dups (split query))).

(** The transcript that [Agent.act] sends to the service. *)
Definition prompt_messages (self : Agent) (global_context : str)
  : list message :=
  [Message (py "system") (_build_system_prompt self)]
    ++ history self
    ++ [Message (py "user")
          (user_content_of global_context
             (_retrieve_for_round self global_context))].

(** A reply as [Agent.act] records it in the history. *)
Definition own_reply (reply : str) : message :=
  Message (py "assistant") reply.

(** The turns of a run in the order in which the two loops of [generate]
    take them: the round number and the position of the agent. *)
Definition schedule (turns : Z) (n : nat) : list (Z * nat) :=
  t ← seqZ 0 turns; (λ i, (t + 1, i)) <$> seq 0 n.

(** The name of the agent at position [i]. *)
Definition speaker_of (agent_list : list Agent) (i : nat) : str :=
  default [] (name ∘ config <$> agent_list !! i).

(** Of the records [log] of the turns [turns], those of the agent at
    position [i]. *)
Definition own_records (i : nat) (turns : list (Z * nat)) (log : list msg)
  : list msg :=
  snd <$> filter (λ p, p.1.2 = i) (zip turns log).

Section run_vocabulary.
Context {W : Type} (create : client W).

(** The loop body of [generate] run for the given turns, in order. *)
Definition run_turns (st : run_state W) (turns : list (Z * nat))
  : run_state W :=
  foldl (λ st ti, turn_body create ti.1 st ti.2) st turns.

(** The state of [generate] when [j] turns have been taken: the state in
    which the next turn calls [act].  From the last turn on it is the
    state at the end of the loops. *)
Definition state_after (scenario : str) (turns : Z)
    (agent_list : list Agent) (w : W) (j : nat) : run_state W :=
  run_turns (initial_state scenario agent_list w)
            (take j (schedule turns (length agent_list))).

(** [K] successive calls of [act] on one agent, with the given contexts;
    the replies in the order of the calls. *)
Fixpoint act_seq (self : Agent) (contexts : list str) (w : W)
  : list str * Agent * W :=
  match contexts with
  | [] => ([], self, w)
  | c :: cs =>
      let '(reply, self', w') := act create self c w in
      let '(replies, self'', w'') := act_seq self' cs w' in
      (reply :: replies, self'', w'')
  end.
End run_vocabulary.

(** The number of turns of the agent at position [i] among [turns]. *)
Definition own_turns (i : nat) (turns : list (Z * nat)) : nat :=
  length (filter (λ ti, ti.2 = i) turns).

(** A request entry that gives a name and nothing else. *)
Definition trivial_config (agent_name : str) : gmap str str :=
  {[ py "name" := agent_name ]}.

(** A file system without any folder. *)
Definition no_files : FileSystem :=
  {| expanduser := λ path, path; resolve := λ _, None |}.

(** The text-generation stub that echoes its last input. *)
Definition echo_stub : client () :=
  λ _ _ messages w, (Completion (default [] (content <$> last messages)), w).

(** A text-generation stub of which every call raises. *)
Definition failing_stub (repr_e : str) : client () :=
  λ _ _ _ w, (Raised repr_e, w).

(** The files of a walk that the loader reads: those of a recognized
    extension, each with the folder it is in. *)
Definition recognized_files
    (triples : list (str * list str * list (str * read_result)))
  : list (str * (str * read_result)) :=
  '(root, _, files) ← triples;
  (λ f, (root, f)) <$> filter (λ f, in_exts (lower (splitext_ext f.1)) = true) files.

(** The document, if any, that the loader makes of a recognized file. *)
Definition document_of (root : str) (file : str * read_result)
  : option str :=
  match file.2 with
  | ReadText raw =>
      if truthy (strip raw)
      then Some (py "【文件：" ++ file.1 ++ py "】
" ++ strip raw)
      else None
  | ReadError str_e =>
      Some (py "【读取失败：" ++ path_join root file.1 ++ py "】" ++ str_e)
  end.

(** A valid agent configuration of a request: its name, stripped, is not
    empty. *)
Definition valid_config (a : gmap str str) : bool :=
  truthy (strip (dict_get a (py "name") [])).

(** The agent configuration that [build_agents_from_request] makes of a
    request entry. *)
Definition config_of (a : gmap str str) : AgentConfig :=
  {| name := strip (dict_get a (py "name") []);
     short_name := strip (dict_get a (py "name") []);
     role_description := dict_get a (py "role") [];
     strategic_preferences := dict_get a (py "strategic_preferences") [];
     knowledge := dict_get a (py "knowledge") [];
     knowledge_mode := dict_get a (py "knowledge_mode") (py "inline");
     knowledge_folder := dict_get a (py "knowledge_folder") [] |}.

(** A reply that visibly encodes a failure of the service. *)
Definition failure_notice (reply : str) : Prop :=
  ∃ repr_e, reply = py "[LLM 调用出错：" ++ repr_e ++ py "]".

(** ** app.py: the non-streaming route *)

(** The two ways [simulate_once] returns: [jsonify({"error": ...}), 400],
    or [jsonify({"messages": messages_log})], of which the list of the
    message objects is kept. *)
Inductive once_response :=
| OnceStatus (body : json) (status : Z)
| OnceMessages (messages : list json).

(** The variables of the loop of [simulate_once], the agents, and the state
    of the service. *)
Record once_state (W : Type) := OnceState {
  once_agents : list Agent;
  once_messages_log : list msg;
  once_global_context : str;
  once_world : W
}.
Arguments OnceState {W}.
Arguments once_agents {W}.
Arguments once_messages_log {W}.
Arguments once_global_context {W}.
Arguments once_world {W}.

Section simulate_once.
Context {W : Type} (create : client W).

(** The body of the inner loop of [simulate_once], for the agent at
    position [i]. *)
Definition once_turn_body (turn_idx : Z) (st : once_state W) (i : nat)
  : once_state W :=
  match once_agents st !! i with
  | None => st
  | Some agent =>
      let '(reply, agent', w') :=
        act create agent (once_global_context st) (once_world st) in
      let m := {| turn := turn_idx;
                  speaker := name (config agent);
                  reply_text := reply |} in
      {| once_agents := <[i := agent']> (once_agents st);
         once_messages_log := once_messages_log st ++ [m];
         once_global_context := once_global_context st ++ turn_entry m;
         once_world := w' |}
  end.

(** [for t in range(turns): for agent in agents: ...] *)
Definition once_rounds (turns : Z) (st : once_state W) : once_state W :=
  foldl (λ st t,
           let turn_idx := t + 1 in
           foldl (once_turn_body turn_idx) st
                 (seq 0 (length (once_agents st))))
        st (seqZ 0 turns).

(** [simulate_once] *)
Definition simulate_once (fs : FileSystem) (data : request) (w : W)
  : once_response * W :=
  let scenario := strip (default [] (req_scenario data)) in
  let turns := default 3 (req_turns data) in
  let agents_data := default [] (req_agents data) in
  let agents := build_agents_from_request fs agents_data in
  if negb (bool_decide (agents ≠ [])) then
    (OnceStatus (JObj [(py "error", JStr (py "No valid agents provided."))]) 400,
     w)
  else
    let st :=
      once_rounds turns
        {| once_agents := agents;
           once_messages_log := [];
           once_global_context := scenario_line scenario;
           once_world := w |} in
    (OnceMessages (json_of_msg <$> once_messages_log st), once_world st).
End simulate_once.

(** ** Further vocabulary *)

(** The label every global context starts with, and the line that stands
    for a scenario that is not given. *)
Definition scenario_label : str := py "场景描述：".
Definition placeholder_line : str := py "场景描述：无（前端未提供）".

(** The heading and the separator of the background material that
    [_retrieve_for_round] returns. *)
Definition material_heading : str :=
  py "【以下是与你方相关的检索到的背景材料片段（仅供内部推理，不要直接照抄原文）：】
".
Definition material_separator : str := py "

------

".

(** The tags of the documents that the loader makes. *)
Definition file_tag : str := py "【文件：".
Definition failure_tag : str := py "【读取失败：".

(** A text-generation stub that counts its calls. *)
Definition counting_stub : client nat :=
  λ _ _ _ n, (Completion (py "ok"), S n).

(** The view of the loop state of [generate] that [simulate_once] has. *)
Definition once_view {W : Type} (st : run_state W) : once_state W :=
  {| once_agents := agents st;
     once_messages_log := messages_log st;
     once_global_context := global_context st;
     once_world := world st |}.

(** * Properties *)

(** ** Text *)

Example py_ascii : py "A b" = [65; 32; 98]%N.
Proof. reflexivity. Qed.

Example py_cjk : py "场景：" = [0x573A; 0x666F; 0xFF1A]%N.
Proof. reflexivity. Qed.

Example split_example :
  split (py "  ab  c
d ") = [py "ab"; py "c"; py "d"].
Proof. reflexivity. Qed.

Example strip_example : strip (py "  a b
 ") = py "a b".
Proof. reflexivity. Qed.

Example str_of_int_example : str_of_int 12 = py "12".
Proof. reflexivity. Qed.

Example splitext_examples :
  splitext_ext
    <$> [py "a.txt"; py ".bashrc"; py "a.b.MD"; py "..x"; py "a."; py "d.x/f"]
  = [py ".txt"; []; py ".MD"; []; py "."; []].
Proof. reflexivity. Qed.

Example path_join_examples :
  [path_join (py "kb") (py "a.txt"); path_join (py "kb/") (py "a.txt");
   path_join [] (py "a.txt"); path_join (py "kb") (py "/a.txt")]
  = [py "kb/a.txt"; py "kb/a.txt"; py "a.txt"; py "/a.txt"].
Proof. reflexivity. Qed.

Example slice_to_examples :
  [slice_to [1; 2; 3] 2; slice_to [1; 2; 3] 5; slice_to [1; 2; 3] (-1);
   slice_to [1; 2; 3] (-4)]
  = [[1; 2]; [1; 2; 3]; [1; 2]; []].
Proof. reflexivity. Qed.

Example sort_desc_example :
  sort_desc fst [(1, py "a"); (3, py "b"); (1, py "c"); (3, py "d"); (2, py "e")]
  = [(3, py "b"); (3, py "d"); (2, py "e"); (1, py "a"); (1, py "c")].
Proof. reflexivity. Qed.

Lemma startswith_spec (t s : str) :
  startswith s t = true ↔ ∃ post, s = t ++ post.
Proof.
  revert s. induction t as [|a t IH]; intros s; simpl.
  - split; [intros _; by exists s | done].
  - destruct s as [|b s]; simpl.
    + split; [done | intros [post ?]; done].
    + rewrite andb_true_iff, N.eqb_eq, IH. split.
      * intros [-> [post ->]]. by exists post.
      * intros [post [= -> ->]]. eauto.
Qed.

Lemma contains_spec (d t : str) : contains d t = true ↔ occurs t d.
Proof.
  unfold occurs. induction d as [|c d IH]; simpl.
  - rewrite orb_false_r, startswith_spec. split.
    + intros [post ->]. by exists [], post.
    + intros [pre [post H]]. symmetry in H.
      apply app_eq_nil in H as [-> H]. exists post. done.
  - rewrite orb_true_iff, startswith_spec, IH. split.
    + intros [[post ->] | [pre [post ->]]].
      * by exists [], post.
      * by exists (c :: pre), post.
    + intros [[|c' pre] [post H]].
      * left. exists post. done.
      * right. injection H as -> ->. eauto.
Qed.

Lemma split_from_nonempty (cur s t : str) :
  t ∈ split_from cur s → t ≠ [].
Proof.
  revert cur. induction s as [|c s IH]; intros cur; simpl.
  - destruct cur as [|a cur]; [by intros ?%elem_of_nil |].
    intros ->%list_elem_of_singleton Hnil.
    apply (f_equal length) in Hnil. rewrite length_rev in Hnil. done.
  - destruct (isspace c); [| by apply IH].
    destruct cur as [|a cur]; [by apply IH |].
    intros [-> | Ht]%elem_of_cons; [| by eapply IH].
    intros Hnil. apply (f_equal length) in Hnil.
    rewrite length_rev in Hnil. done.
Qed.

(** Every token of [query.split()] is a non-empty string. *)
Lemma split_nonempty (query t : str) : t ∈ split query → t ≠ [].
Proof. apply split_from_nonempty. Qed.

Lemma truthy_true (s : str) : truthy s = true ↔ s ≠ [].
Proof. by destruct s. Qed.

Lemma split_empty : split [] = [].
Proof. reflexivity. Qed.

(** ** The sort *)

Section sort_desc.
Context {A : Type} (key : A → Z).

Lemma insert_desc_perm x l : insert_desc key x l ≡ₚ x :: l.
Proof.
  induction l as [|y l IH]; simpl; [done |].
  destruct (key x <? key y); [| done].
  rewrite IH. apply Permutation_swap.
Qed.

Lemma sort_desc_perm l : sort_desc key l ≡ₚ l.
Proof.
  induction l as [|x l IH]; simpl; [done |].
  fold (sort_desc key l). by rewrite insert_desc_perm, IH.
Qed.

Lemma insert_desc_sorted x l :
  StronglySorted (λ a b, key b ≤ key a) l →
  StronglySorted (λ a b, key b ≤ key a) (insert_desc key x l).
Proof.
  induction 1 as [|y l Hs IH Hy]; simpl.
  - repeat constructor.
  - destruct (Z.ltb_spec (key x) (key y)) as [Hlt | Hge].
    + constructor; [done |].
      rewrite insert_desc_perm. constructor; [lia | done].
    + constructor; [by constructor |].
      constructor; [done |].
      eapply Forall_impl; [exact Hy |]. simpl. intros. lia.
Qed.

(** The result is in descending order of the key. *)
Lemma sort_desc_sorted l :
  StronglySorted (λ a b, key b ≤ key a) (sort_desc key l).
Proof.
  induction l as [|x l IH]; simpl; [constructor |].
  by apply insert_desc_sorted.
Qed.

Lemma insert_desc_filter_eq k x l :
  key x = k →
  filter (λ y, key y = k) (insert_desc key x l)
  = x :: filter (λ y, key y = k) l.
Proof.
  intros Hx. induction l as [|y l IH]; simpl.
  - by rewrite filter_cons_True.
  - destruct (Z.ltb_spec (key x) (key y)) as [Hlt | Hge].
    + rewrite (filter_cons_False _ y) by lia.
      rewrite (filter_cons_False _ y) by lia. done.
    + by rewrite filter_cons_True.
Qed.

Lemma insert_desc_filter_ne k x l :
  key x ≠ k →
  filter (λ y, key y = k) (insert_desc key x l)
  = filter (λ y, key y = k) l.
Proof.
  intros Hx. induction l as [|y l IH]; simpl.
  - by rewrite filter_cons_False.
  - destruct (key x <? key y).
    + rewrite !filter_cons, IH. done.
    + by rewrite filter_cons_False.
Qed.

(** The sort is stable: the elements of any one key are in the order in
    which the input has them. *)
Lemma sort_desc_stable k l :
  filter (λ y, key y = k) (sort_desc key l) = filter (λ y, key y = k) l.
Proof.
  induction l as [|x l IH]; simpl; [done |]. fold (sort_desc key l).
  destruct (decide (key x = k)) as [Hk | Hk].
  - rewrite insert_desc_filter_eq by done.
    by rewrite filter_cons_True, IH.
  - rewrite insert_desc_filter_ne by done.
    by rewrite filter_cons_False, IH.
Qed.
End sort_desc.

(** ** Keyword retrieval *)

Lemma filter_ext_Forall {A} (P Q : A → Prop)
    `{!∀ x, Decision (P x), !∀ x, Decision (Q x)} (l : list A) :
  Forall (λ x, P x ↔ Q x) l → filter P l = filter Q l.
Proof.
  induction 1 as [|x l Hx _ IH]; [done |].
  destruct (decide (P x)) as [HP | HP].
  - rewrite !filter_cons_True by tauto. by f_equal.
  - rewrite !filter_cons_False by tauto. done.
Qed.

Lemma score_loop_count (d : str) (ts : list str) (score : Z) :
  foldl (λ score t, if truthy t && contains d t then score + 1 else score)
        score ts
  = score + Z.of_nat (length (filter (λ t, t ≠ [] ∧ contains d t = true) ts)).
Proof.
  revert score. induction ts as [|t ts IH]; intros score; simpl; [lia |].
  rewrite IH.
  destruct (decide (t ≠ [] ∧ contains d t = true)) as [[Ht Hocc] | Hno].
  - rewrite filter_cons_True by done.
    apply truthy_true in Ht. rewrite Ht, Hocc. simpl. lia.
  - rewrite filter_cons_False by done.
    destruct (truthy t && contains d t) eqn:E; [| done].
    apply andb_true_iff in E as [Ht%truthy_true Hocc]. tauto.
Qed.

(** The score the code gives a document is the number of distinct query
    tokens that occur in it. *)
Lemma score_of_match_count (query d : str) :
  score_of (list_to_set (split query)) d = Z.of_nat (match_count query d).
Proof.
  unfold score_of, match_count. rewrite score_loop_count, Z.add_0_l.
  f_equal.
  assert (elements (list_to_set (C:=gset str) (split query))
          ≡ₚ remove_dups (split query)) as Hperm.
  { rewrite <- (elements_list_to_set (C:=gset str) (remove_dups (split query)))
      by apply NoDup_remove_dups.
    apply elements_proper. intros t.
    by rewrite !elem_of_list_to_set, elem_of_remove_dups. }
  rewrite Hperm. f_equal. apply filter_ext_Forall, Forall_forall.
  intros t Ht. rewrite elem_of_remove_dups in Ht.
  apply split_nonempty in Ht. tauto.
Qed.

Lemma match_count_pos (query d : str) :
  (0 < match_count query d)%nat ↔ ∃ t, t ∈ split query ∧ occurs t d.
Proof.
  unfold match_count. split.
  - intros Hpos.
    destruct (filter _ _) as [|t l] eqn:E; [simpl in Hpos; lia |].
    assert (t ∈ filter (λ t, contains d t = true) (remove_dups (split query)))
      as Ht by (rewrite E; left).
    apply list_elem_of_filter in Ht as [Hocc Ht].
    rewrite elem_of_remove_dups in Ht. apply contains_spec in Hocc. eauto.
  - intros (t & Ht & Hocc%contains_spec).
    assert (t ∈ filter (λ t, contains d t = true) (remove_dups (split query)))
      as Hin by (apply list_elem_of_filter; by rewrite elem_of_remove_dups).
    destruct (filter _ _); [by apply elem_of_nil in Hin | simpl; lia].
Qed.

Lemma score_docs_from (Q : gset str) (docs : list str) (acc : list (Z * str)) :
  foldl (λ scored d,
           let score := score_of Q d in
           if 0 <? score then scored ++ [(score, d)] else scored)
        acc docs
  = acc ++ ((λ d, (score_of Q d, d)) <$> filter (λ d, 0 < score_of Q d) docs).
Proof.
  revert acc. induction docs as [|d docs IH]; intros acc; simpl.
  - by rewrite app_nil_r.
  - rewrite IH. destruct (Z.ltb_spec 0 (score_of Q d)).
    + rewrite filter_cons_True by done. simpl. by rewrite <- app_assoc.
    + rewrite filter_cons_False by lia. done.
Qed.

(** The scored list: the documents of positive score, in document order. *)
Lemma score_docs_filter (Q : gset str) (docs : list str) :
  score_docs Q docs
  = (λ d, (score_of Q d, d)) <$> filter (λ d, 0 < score_of Q d) docs.
Proof. apply score_docs_from. Qed.

(** Sorting the scored pairs by score is sorting the documents by score. *)
Lemma sort_desc_decorated (s : str → Z) (l : list str) :
  snd <$> sort_desc fst ((λ d, (s d, d)) <$> l) = sort_desc s l.
Proof.
  enough (sort_desc fst ((λ d, (s d, d)) <$> l)
          = (λ d, (s d, d)) <$> sort_desc s l) as ->.
  { rewrite <- list_fmap_compose. apply list_fmap_id. }
  induction l as [|x l IH]; csimpl; [done |].
  change (foldr (insert_desc fst) [] ((λ d, (s d, d)) <$> l))
    with (sort_desc fst ((λ d, (s d, d)) <$> l)).
  change (foldr (insert_desc s) [] l) with (sort_desc s l).
  rewrite IH. generalize (sort_desc s l). intros l'.
  induction l' as [|y l' IH']; csimpl; [done |].
  destruct (s x <? s y); csimpl; [by rewrite IH' | done].
Qed.

Lemma slice_to_nonneg {A} (l : list A) (k : Z) :
  0 ≤ k → slice_to l k = take (Z.to_nat k) l.
Proof. unfold slice_to. intros. destruct (Z.leb_spec 0 k); [done | lia]. Qed.

(** What [simple_keyword_retrieval] computes, for a non-negative [top_k]. *)
Lemma retrieval_cases (docs : list str) (query : str) (top_k : Z) :
  0 ≤ top_k →
  let s := score_of (list_to_set (split query)) in
  simple_keyword_retrieval docs query top_k
  = if bool_decide (docs = [] ∨ query = []) then []
    else if bool_decide (filter (λ d, 0 < s d) docs = []) then
      take (Z.to_nat top_k) docs
    else take (Z.to_nat top_k) (sort_desc s (filter (λ d, 0 < s d) docs)).
Proof.
  intros Hk s. unfold simple_keyword_retrieval.
  destruct docs as [|d0 docs]; [done |].
  destruct query as [|c query]; [done |].
  rewrite bool_decide_true by done. simpl negb. simpl orb. cbv iota.
  rewrite (bool_decide_false (_ ∨ _)) by (intros [|]; done).
  rewrite score_docs_filter. fold s.
  rewrite !slice_to_nonneg by done.
  destruct (filter (λ d, 0 < s d) (d0 :: docs)) as [|d1 l] eqn:E.
  - done.
  - rewrite (bool_decide_false (_ <$> _ = [])) by done.
    rewrite (bool_decide_false (d1 :: l = [])) by done.
    rewrite <- sort_desc_decorated, fmap_take. done.
Qed.

Lemma StronglySorted_weaken {A} (R1 R2 : A → A → Prop) (l : list A) :
  (∀ x y, R1 x y → R2 x y) → StronglySorted R1 l → StronglySorted R2 l.
Proof.
  intros HR. induction 1 as [|x l _ IH Hx]; constructor; [done |].
  eapply Forall_impl; [exact Hx | auto].
Qed.

Lemma StronglySorted_take {A} (R : A → A → Prop) (n : nat) (l : list A) :
  StronglySorted R l → StronglySorted R (take n l).
Proof.
  intros Hl. revert n. induction Hl as [|x l _ IH Hx]; intros [|n]; simpl;
    try constructor; [apply IH | by apply Forall_take].
Qed.

Lemma filter_none {A} (P : A → Prop) `{!∀ x, Decision (P x)} (l : list A) :
  Forall (λ x, ¬ P x) l → filter P l = [].
Proof.
  induction 1 as [|x l Hx _ IH]; [done |]. by rewrite filter_cons_False.
Qed.

(** C4. For a non-empty document list and a query of which at least one
    whitespace-separated token occurs in some document,
    [simple_keyword_retrieval] returns at most [top_k] documents; each of them
    is a document of the list in which a token of the query occurs; they are
    in descending order of the number of distinct query tokens occurring in
    them; and they are the first [top_k] of the ranking of all matching
    documents in which documents of equal count keep the order of the
    document list. *)
Theorem select_ranks_matching_documents
    (docs : list str) (query : str) (top_k : Z) :
  docs ≠ [] →
  (∃ t d, t ∈ split query ∧ d ∈ docs ∧ occurs t d) →
  0 ≤ top_k →
  let result := simple_keyword_retrieval docs query top_k in
  let by_count := λ a b, (match_count query b ≤ match_count query a)%nat in
  (length result ≤ Z.to_nat top_k)%nat
  ∧ (∀ d, d ∈ result → d ∈ docs ∧ ∃ t, t ∈ split query ∧ occurs t d)
  ∧ StronglySorted by_count result
  ∧ ∃ ranked,
      result = take (Z.to_nat top_k) ranked
      ∧ StronglySorted by_count ranked
      ∧ ∀ n, filter (λ d, match_count query d = n) ranked
             = if decide (n = 0%nat) then []
               else filter (λ d, match_count query d = n) docs.
Proof.
  intros Hdocs (t & d & Ht & Hd & Hocc) Hk result by_count.
  set (s := score_of (list_to_set (split query))).
  assert (∀ x, s x = Z.of_nat (match_count query x)) as Hs
    by apply score_of_match_count.
  set (F := filter (λ d, 0 < s d) docs).
  assert (d ∈ F) as HdF.
  { apply list_elem_of_filter. split; [| done]. rewrite Hs.
    enough (0 < match_count query d)%nat by lia.
    apply match_count_pos. eauto. }
  assert (result = take (Z.to_nat top_k) (sort_desc s F)) as Hres.
  { unfold result. rewrite retrieval_cases by done. fold s. fold F.
    rewrite bool_decide_false.
    - rewrite bool_decide_false; [done |].
      intros E. rewrite E in HdF. by apply elem_of_nil in HdF.
    - intros [? | ->]; [done |]. by apply elem_of_nil in Ht. }
  assert (StronglySorted by_count (sort_desc s F)) as Hsorted.
  { eapply StronglySorted_weaken; [| apply sort_desc_sorted].
    unfold by_count. intros x y. simpl. rewrite !Hs. lia. }
  split_and!.
  - rewrite Hres, length_take. lia.
  - intros x Hx. rewrite Hres in Hx.
    apply elem_of_take in Hx as (i & Hx%list_elem_of_lookup_2 & _).
    rewrite sort_desc_perm in Hx.
    apply list_elem_of_filter in Hx as [Hpos Hx]. split; [done |].
    apply match_count_pos. rewrite Hs in Hpos. lia.
  - rewrite Hres. by apply StronglySorted_take.
  - exists (sort_desc s F). split_and!; [done | done |].
    intros n.
    rewrite (list_filter_iff _ (λ x, s x = Z.of_nat n))
      by (intros x; rewrite Hs; lia).
    rewrite sort_desc_stable. unfold F. destruct (decide (n = 0%nat)) as [-> | Hn].
    + apply filter_none, Forall_forall.
      intros x [Hpos _]%list_elem_of_filter. simpl. lia.
    + rewrite list_filter_filter.
      apply list_filter_iff. intros x. rewrite Hs. lia.
Qed.

Lemma select_ranks_matching_documents_witness :
  let docs := [py "a b c"; py "xx b"; py "zzz"; py "c b a"] in
  let query := py "a  b q" in
  docs ≠ []
  ∧ (∃ t d, t ∈ split query ∧ d ∈ docs ∧ occurs t d)
  ∧ 0 ≤ 2
  ∧ simple_keyword_retrieval docs query 2 = [py "a b c"; py "c b a"]
  ∧ ∃ ranked,
      simple_keyword_retrieval docs query 2 = take 2 ranked
      ∧ ∀ n, filter (λ d, match_count query d = n) ranked
             = if decide (n = 0%nat) then []
               else filter (λ d, match_count query d = n) docs.
Proof.
  intros docs query.
  assert (docs ≠ []) as H1 by done.
  assert (∃ t d, t ∈ split query ∧ d ∈ docs ∧ occurs t d) as H2.
  { exists (py "b"), (py "xx b"). split_and!.
    - vm_compute. apply list_elem_of_further, list_elem_of_here.
    - apply list_elem_of_further, list_elem_of_here.
    - by apply contains_spec. }
  assert (0 ≤ 2) as H3 by lia.
  split_and!; [done | done | done | by vm_compute |].
  destruct (select_ranks_matching_documents docs query 2 H1 H2 H3)
    as (_ & _ & _ & ranked & Hr & _ & Hstable).
  exists ranked. done.
Defined.

(** C5, as the code has it.  When no token of the query occurs in any
    document, [simple_keyword_retrieval] returns the first [top_k] documents
    in their order (all of them if there are fewer) provided the query is not
    the empty string; for the empty query, as for the empty document list, it
    returns the empty list. *)
Theorem select_falls_back_to_first_documents
    (docs : list str) (query : str) (top_k : Z) :
  (∀ t d, t ∈ split query → d ∈ docs → ¬ occurs t d) →
  0 ≤ top_k →
  (query ≠ [] →
   simple_keyword_retrieval docs query top_k = take (Z.to_nat top_k) docs)
  ∧ (query = [] → simple_keyword_retrieval docs query top_k = [])
  ∧ (docs = [] → simple_keyword_retrieval docs query top_k = []).
Proof.
  intros Hno Hk. rewrite retrieval_cases by done.
  set (s := score_of (list_to_set (split query))).
  assert (filter (λ d, 0 < s d) docs = []) as ->.
  { apply filter_none, Forall_forall. intros d Hd Hpos.
    unfold s in Hpos. rewrite score_of_match_count in Hpos.
    assert (0 < match_count query d)%nat as Hm by lia.
    apply match_count_pos in Hm as (t & Ht & Hocc). by eapply Hno. }
  rewrite (bool_decide_true ([] = [])) by done. split_and!.
  - intros Hq. case_bool_decide as Hc; [| done].
    destruct Hc as [-> | ->]; [by rewrite take_nil | done].
  - intros ->. by rewrite bool_decide_true by auto.
  - intros ->. by rewrite bool_decide_true by auto.
Qed.

Lemma select_falls_back_to_first_documents_witness :
  let docs := [py "alpha"; py "beta"; py "gamma"] in
  let query := py " x  y " in
  (∀ t d, t ∈ split query → d ∈ docs → ¬ occurs t d)
  ∧ 0 ≤ 2
  ∧ query ≠ []
  ∧ simple_keyword_retrieval docs query 2 = [py "alpha"; py "beta"].
Proof.
  intros docs query.
  assert (∀ t d, t ∈ split query → d ∈ docs → ¬ occurs t d) as H1.
  { intros t d Ht Hd Hocc%contains_spec. vm_compute in Ht.
    repeat (apply elem_of_cons in Ht as [-> | Ht]);
      [| | by apply elem_of_nil in Ht];
      repeat (apply elem_of_cons in Hd as [-> | Hd]);
      (by apply elem_of_nil in Hd) || by vm_compute in Hocc. }
  assert (0 ≤ 2) as H2 by lia.
  assert (query ≠ []) as H3 by done.
  split_and!; [done | done | done |].
  destruct (select_falls_back_to_first_documents docs query 2 H1 H2)
    as (Hr & _ & _).
  rewrite (Hr H3). reflexivity.
Defined.

(** The claim C5 as the specification words it fails for the empty query:
    no token occurs in any document, yet nothing is returned. *)
Lemma select_empty_query_counterexample :
  let docs := [py "alpha"; py "beta"] in
  (∀ t d, t ∈ split [] → d ∈ docs → ¬ occurs t d)
  ∧ take 3 docs = docs
  ∧ simple_keyword_retrieval docs [] 3 = []
  ∧ simple_keyword_retrieval docs [] 3 ≠ take 3 docs.
Proof.
  intros docs. split_and!; [| done | done | done].
  intros t d Ht. by apply elem_of_nil in Ht.
Qed.

(** ** Agents *)

Section act_facts.
Context {W : Type} (create : client W).

(** One call of [act]: the request sent, the reply returned, and the
    agent afterwards. *)
Lemma act_unfold (self : Agent) (global_context : str) (w : W) :
  act create self global_context w
  = let rw := call_llm create (prompt_messages self global_context) w in
    (rw.1,
     {| config := config self;
        history := history self ++ [own_reply rw.1];
        docs := docs self |},
     rw.2).
Proof.
  unfold act, prompt_messages. simpl.
  by destruct (call_llm create _ w) as [reply w'].
Qed.

Lemma act_config self ctx w : config (act create self ctx w).1.2 = config self.
Proof. by rewrite act_unfold. Qed.

Lemma act_docs self ctx w : docs (act create self ctx w).1.2 = docs self.
Proof. by rewrite act_unfold. Qed.

Lemma act_history self ctx w :
  history (act create self ctx w).1.2
  = history self ++ [own_reply (act create self ctx w).1.1].
Proof. by rewrite act_unfold. Qed.

Lemma act_seq_spec (contexts : list str) :
  ∀ (self : Agent) (w : W),
    let r := act_seq create self contexts w in
    history r.1.2 = history self ++ (own_reply <$> r.1.1)
    ∧ length r.1.1 = length contexts
    ∧ config r.1.2 = config self
    ∧ docs r.1.2 = docs self.
Proof.
  induction contexts as [|c cs IH]; intros self w; simpl.
  - by rewrite app_nil_r.
  - pose proof (act_history self c w) as Hh.
    pose proof (act_config self c w) as Hc.
    pose proof (act_docs self c w) as Hd.
    destruct (act create self c w) as [[reply self'] w']. simpl in *.
    specialize (IH self' w').
    destruct (act_seq create self' cs w') as [[replies self''] w''].
    simpl in *. destruct IH as (-> & -> & -> & ->).
    rewrite Hh, Hc, Hd, <- app_assoc. done.
Qed.

(** A service call that raises makes [call_llm] return the notice. *)
Lemma call_llm_failure (messages : list message) (w : W) :
  (∃ repr_e w', create (py "qwen-plus") (3 # 10)%Q messages w
                = (Raised repr_e, w')) →
  failure_notice (call_llm create messages w).1.
Proof.
  intros (repr_e & w' & E). unfold call_llm, call_llm_with. rewrite E.
  by exists repr_e.
Qed.
End act_facts.

(** ** The simulation loop *)

Section run_facts.
Context {W : Type} (create : client W).

Lemma turn_body_unfold (turn_idx : Z) (st : run_state W) (i : nat)
    (agent : Agent) :
  agents st !! i = Some agent →
  let r := act create agent (global_context st) (world st) in
  let m := {| turn := turn_idx; speaker := name (config agent);
              reply_text := r.1.1 |} in
  turn_body create turn_idx st i
  = {| agents := <[i := r.1.2]> (agents st);
       messages_log := messages_log st ++ [m];
       global_context := global_context st ++ turn_entry m;
       yielded := yielded st ++ [message_chunk m];
       world := r.2 |}.
Proof.
  intros Hi. unfold turn_body. rewrite Hi. simpl.
  by destruct (act create agent _ _) as [[reply agent'] w'].
Qed.

Lemma run_turns_cons st ti l :
  run_turns create st (ti :: l)
  = run_turns create (turn_body create ti.1 st ti.2) l.
Proof. done. Qed.

Lemma run_turns_app st l1 l2 :
  run_turns create st (l1 ++ l2)
  = run_turns create (run_turns create st l1) l2.
Proof. apply foldl_app. Qed.

Lemma own_records_cons i ti l m log :
  own_records i (ti :: l) (m :: log)
  = if decide (ti.2 = i) then m :: own_records i l log
    else own_records i l log.
Proof.
  unfold own_records. simpl. rewrite filter_cons. simpl.
  by destruct (decide (ti.2 = i)).
Qed.

(** What a sequence of turns does to the state of the run.  [new] is the
    list of the records of these turns. *)
Lemma run_turns_spec (l : list (Z * nat)) :
  ∀ st : run_state W,
    Forall (λ ti, (ti.2 < length (agents st))%nat) l →
    ∃ new,
      messages_log (run_turns create st l) = messages_log st ++ new
      ∧ length new = length l
      ∧ global_context (run_turns create st l)
        = global_context st ++ concat (turn_entry <$> new)
      ∧ yielded (run_turns create st l)
        = yielded st ++ (message_chunk <$> new)
      ∧ config <$> agents (run_turns create st l) = config <$> agents st
      ∧ docs <$> agents (run_turns create st l) = docs <$> agents st
      ∧ (λ m, (turn m, speaker m)) <$> new
        = (λ ti, (ti.1, speaker_of (agents st) ti.2)) <$> l
      ∧ (∀ i, history <$> agents (run_turns create st l) !! i
              = (λ a, history a
                        ++ (own_reply ∘ reply_text <$> own_records i l new))
                  <$> agents st !! i)
      ∧ ∀ P : str → Prop,
          (∀ self ctx w, P (act create self ctx w).1.1) →
          Forall (λ m, P (reply_text m)) new.
Proof.
  induction l as [|ti l IH]; intros st Hvalid.
  - exists []. simpl. rewrite !app_nil_r. split_and!; try done.
    intros i. destruct (agents st !! i); simpl; [| done].
    by rewrite app_nil_r.
  - apply Forall_cons in Hvalid as [Hti Hvalid].
    destruct (lookup_lt_is_Some_2 _ _ Hti) as [agent Hagent].
    rewrite run_turns_cons.
    pose proof (turn_body_unfold ti.1 st ti.2 agent Hagent) as Hstep.
    simpl in Hstep.
    set (r := act create agent (global_context st) (world st)) in *.
    set (m := {| turn := ti.1; speaker := name (config agent);
                 reply_text := r.1.1 |}) in *.
    set (st1 := turn_body create ti.1 st ti.2) in *.
    assert (agents st1 = <[ti.2 := r.1.2]> (agents st)) as Hagents
      by (by rewrite Hstep).
    assert (config <$> agents st1 = config <$> agents st) as Hcfg.
    { rewrite Hagents, list_fmap_insert. apply list_insert_id.
      rewrite list_lookup_fmap, Hagent. simpl. f_equal.
      unfold r. by rewrite act_config. }
    assert (docs <$> agents st1 = docs <$> agents st) as Hdocs.
    { rewrite Hagents, list_fmap_insert. apply list_insert_id.
      rewrite list_lookup_fmap, Hagent. simpl. f_equal.
      unfold r. by rewrite act_docs. }
    assert (length (agents st1) = length (agents st)) as Hlen
      by (by rewrite Hagents, length_insert).
    destruct (IH st1)
      as (new & Hlog & Hnew & Hctx & Hout & Hc & Hd & Hsp & Hh & HP).
    { by rewrite Hlen. }
    exists (m :: new). split_and!.
    + rewrite Hlog, Hstep. simpl. by rewrite <- app_assoc.
    + simpl. by rewrite Hnew.
    + rewrite Hctx, Hstep. simpl. by rewrite <- app_assoc.
    + rewrite Hout, Hstep. simpl. by rewrite <- app_assoc.
    + by rewrite Hc.
    + by rewrite Hd.
    + csimpl. rewrite Hsp. f_equal.
      * unfold speaker_of. by rewrite Hagent.
      * apply list_fmap_ext. intros _ [t i] _. simpl. unfold speaker_of.
        f_equal.
        change (name ∘ config <$> agents st1 !! i)
          with (name ∘ config <$> (agents st1 !! i)).
        rewrite <- !list_lookup_fmap, !list_fmap_compose.
        by rewrite Hcfg.
    + intros i. rewrite Hh, own_records_cons, Hagents.
      destruct (decide (ti.2 = i)) as [<- | Hne].
      * rewrite list_lookup_insert_eq by done. rewrite Hagent. simpl.
        f_equal. unfold r at 1. rewrite act_history. fold r.
        by rewrite <- app_assoc.
      * by rewrite list_lookup_insert_ne by done.
    + intros P Hact. constructor; [apply Hact | by apply HP].
Qed.
End run_facts.

(** ** The schedule of a run *)

Lemma schedule_valid (turns : Z) (n : nat) :
  Forall (λ ti, (ti.2 < n)%nat) (schedule turns n).
Proof.
  unfold schedule. apply Forall_bind, Forall_forall. intros t _.
  apply Forall_fmap, Forall_forall. intros i Hi%elem_of_seq. simpl. lia.
Qed.

Lemma length_bind_const {A B} (f : A → list B) (c : nat) (l : list A) :
  (∀ x, length (f x) = c) → length (l ≫= f) = (length l * c)%nat.
Proof.
  intros Hf. induction l as [|x l IH]; [done |].
  rewrite bind_cons, length_app, Hf, IH. simpl. lia.
Qed.

Lemma schedule_length (turns : Z) (n : nat) :
  length (schedule turns n) = (Z.to_nat turns * n)%nat.
Proof.
  unfold schedule. rewrite (length_bind_const _ n), length_seqZ; [done |].
  intros t. by rewrite length_fmap, length_seq.
Qed.

(** The names along the schedule: round after round, the agents in the
    order of the list. *)
Lemma schedule_speakers (turns : Z) (agent_list : list Agent) :
  (λ ti, (ti.1, speaker_of agent_list ti.2))
    <$> schedule turns (length agent_list)
  = t ← seqZ 0 turns; (λ a, (t + 1, name (config a))) <$> agent_list.
Proof.
  unfold schedule. generalize (seqZ 0 turns). intros ts.
  induction ts as [|t ts IH]; [done |].
  rewrite !bind_cons, fmap_app, IH. f_equal.
  rewrite <- list_fmap_compose.
  apply list_eq. intros i. rewrite !list_lookup_fmap.
  destruct (agent_list !! i) as [a|] eqn:E; simpl.
  - rewrite lookup_seq_lt by (by eapply lookup_lt_Some). simpl.
    unfold speaker_of. by rewrite E.
  - apply lookup_ge_None in E. by rewrite lookup_seq_ge.
Qed.

Section loops.
Context {W : Type} (create : client W).

Lemma turn_body_length turn_idx (st : run_state W) i :
  length (agents (turn_body create turn_idx st i)) = length (agents st).
Proof.
  unfold turn_body. destruct (agents st !! i) as [agent|]; [| done].
  destruct (act create agent _ _) as [[reply agent'] w']. simpl.
  apply length_insert.
Qed.

Lemma run_turns_length (l : list (Z * nat)) (st : run_state W) :
  length (agents (run_turns create st l)) = length (agents st).
Proof.
  revert st. induction l as [|ti l IH]; intros st; [done |].
  by rewrite run_turns_cons, IH, turn_body_length.
Qed.

Lemma round_body_run_turns (st : run_state W) (t : Z) :
  round_body create st t
  = run_turns create st ((λ i, (t + 1, i)) <$> seq 0 (length (agents st))).
Proof. unfold round_body, run_turns. by rewrite foldl_fmap. Qed.

(** The two nested loops take the turns of the schedule, in order. *)
Lemma run_rounds_schedule (turns : Z) (st : run_state W) :
  run_rounds create turns st
  = run_turns create st (schedule turns (length (agents st))).
Proof.
  unfold run_rounds, schedule. generalize (seqZ 0 turns). intros ts.
  revert st. induction ts as [|t ts IH]; intros st; [done |].
  rewrite bind_cons, run_turns_app. simpl.
  rewrite IH, round_body_run_turns. by rewrite run_turns_length.
Qed.

Lemma state_after_all scenario turns agent_list w (j : nat) :
  (Z.to_nat turns * length agent_list ≤ j)%nat →
  state_after create scenario turns agent_list w j
  = run_rounds create turns (initial_state scenario agent_list w).
Proof.
  intros Hj. unfold state_after. rewrite run_rounds_schedule. simpl.
  by rewrite take_ge by (by rewrite schedule_length).
Qed.

(** The run up to turn [j] and from turn [j] on. *)
Lemma run_split scenario turns agent_list w (j : nat) :
  let st := state_after create scenario turns agent_list w j in
  let final := generate create scenario turns agent_list w in
  ∃ new rest,
    messages_log st = new
    ∧ messages_log final = new ++ rest
    ∧ length new = (j `min` (Z.to_nat turns * length agent_list))%nat
    ∧ length rest = (Z.to_nat turns * length agent_list - j)%nat
    ∧ global_context st = scenario_line scenario ++ concat (turn_entry <$> new)
    ∧ global_context final = global_context st ++ concat (turn_entry <$> rest)
    ∧ yielded st = message_chunk <$> new
    ∧ yielded final
      = (message_chunk <$> new ++ rest)
          ++ [done_chunk (Z.of_nat (length (new ++ rest)))].
Proof.
  intros st final.
  set (st0 := initial_state scenario agent_list w).
  set (sched := schedule turns (length agent_list)).
  assert (Forall (λ ti, (ti.2 < length agent_list)%nat) sched) as Hvalid
    by apply schedule_valid.
  destruct (run_turns_spec create (take j sched) st0)
    as (new & Hlog & Hnew & Hctx & Hout & _).
  { by apply Forall_take. }
  destruct (run_turns_spec create (drop j sched) st)
    as (rest & Hlog2 & Hrest & Hctx2 & Hout2 & _).
  { unfold st, state_after. rewrite run_turns_length. simpl.
    by apply Forall_drop. }
  assert (run_rounds create turns st0 = run_turns create st (drop j sched))
    as Hfinal.
  { rewrite run_rounds_schedule. simpl. fold sched.
    rewrite <- (take_drop j sched) at 1. by rewrite run_turns_app. }
  change (run_turns create st0 (take j sched)) with st in Hlog, Hctx, Hout.
  simpl in Hlog, Hctx, Hout.
  exists new, rest. unfold final, generate. fold st0. simpl.
  rewrite Hfinal, Hlog2, Hctx2, Hout2, Hlog, Hout.
  unfold sched in Hnew, Hrest.
  rewrite length_take, schedule_length in Hnew.
  rewrite length_drop, schedule_length in Hrest.
  split_and!; try done.
  by rewrite fmap_app.
Qed.
End loops.

Section run_properties.
Context {W : Type} (create : client W).

Lemma take_app_min {A} (new rest : list A) (j total : nat) :
  length new = (j `min` total)%nat →
  length rest = (total - j)%nat →
  take j (new ++ rest) = new.
Proof.
  intros Hnew Hrest. destruct (decide (j ≤ total)%nat).
  - apply take_app_length'. lia.
  - rewrite (nil_length_inv rest) by lia.
    rewrite app_nil_r. apply take_ge. lia.
Qed.

(** When [j] turns have been taken, the log holds the first [j] records of
    the run and the context is the scenario line followed by their
    entries. *)
Lemma state_after_log scenario turns agent_list w (j : nat) :
  let st := state_after create scenario turns agent_list w j in
  let final := generate create scenario turns agent_list w in
  messages_log st = take j (messages_log final)
  ∧ global_context st
    = scenario_line scenario
        ++ concat (turn_entry <$> take j (messages_log final))
  ∧ yielded st = message_chunk <$> take j (messages_log final).
Proof.
  intros st final.
  destruct (run_split create scenario turns agent_list w j)
    as (new & rest & Hlog & Hfin & Hnew & Hrest & Hctx & _ & Hout & _).
  fold st in Hlog, Hctx, Hout. fold final in Hfin.
  rewrite Hfin, (take_app_min _ _ _ _ Hnew Hrest). done.
Qed.

(** At the end of the run. *)
Lemma generate_log scenario turns agent_list w :
  let final := generate create scenario turns agent_list w in
  length (messages_log final) = (Z.to_nat turns * length agent_list)%nat
  ∧ global_context final
    = scenario_line scenario ++ concat (turn_entry <$> messages_log final)
  ∧ yielded final
    = (message_chunk <$> messages_log final)
        ++ [done_chunk (Z.of_nat (length (messages_log final)))].
Proof.
  intros final.
  destruct (run_split create scenario turns agent_list w 0)
    as (new & rest & Hlog & Hfin & Hnew & Hrest & Hctx & Hctx2 & _ & Hout).
  fold final in Hfin, Hctx2, Hout.
  apply nil_length_inv in Hnew as ->. simpl in *.
  rewrite Hfin, Hctx2, Hctx. simpl. rewrite app_nil_r.
  rewrite Hfin in Hout. split_and!; [lia | done | done].
Qed.

(** C1. The global context is append-only.  When [j] turns have been
    taken the context is the scenario line (the label and the scenario, or
    the placeholder line for the empty scenario) followed by the entries of
    the first [j] records of the run, in the order of the turns; the entry of
    a record is a blank line, then the round number and the name of the
    speaker between brackets, then the reply.  The next turn calls [act] with
    this context and appends the entry of its record; the context of any
    later moment extends it; and at the end it is the scenario line followed
    by the entries of all records. *)
Theorem global_context_append_only
    (scenario : str) (turns : Z) (agent_list : list Agent) (w : W)
    (j : nat) :
  let final := generate create scenario turns agent_list w in
  let after := state_after create scenario turns agent_list w in
  let first_line :=
    if bool_decide (scenario = []) then py "场景描述：无（前端未提供）"
    else py "场景描述：" ++ scenario in
  let entry := λ m : msg,
    py "

[第" ++ str_of_int (turn m) ++ py "轮 " ++ speaker m ++ py " 发言]: "
       ++ reply_text m in
  global_context (after j)
  = first_line ++ concat (entry <$> take j (messages_log final))
  ∧ (∀ turn_idx i,
       schedule turns (length agent_list) !! j = Some (turn_idx, i) →
       ∃ agent,
         agents (after j) !! i = Some agent
         ∧ let r := act create agent (global_context (after j))
                        (world (after j)) in
           let m := {| turn := turn_idx; speaker := name (config agent);
                       reply_text := r.1.1 |} in
           take (S j) (messages_log final)
           = take j (messages_log final) ++ [m]
           ∧ global_context (after (S j))
             = global_context (after j)
                 ++ py "

[第" ++ str_of_int turn_idx ++ py "轮 " ++ name (config agent)
                 ++ py " 发言]: " ++ r.1.1)
  ∧ (∀ k, ∃ more,
       global_context (after (j + k)%nat) = global_context (after j) ++ more)
  ∧ length (messages_log final) = (Z.to_nat turns * length agent_list)%nat
  ∧ global_context final
    = first_line ++ concat (entry <$> messages_log final).
Proof.
  intros final after first_line entry.
  assert (first_line = scenario_line scenario) as Hline.
  { unfold first_line, scenario_line. destruct scenario as [|c scenario'].
    - rewrite bool_decide_true by reflexivity. cbn [truthy]. reflexivity.
    - rewrite bool_decide_false by discriminate. cbn [truthy]. reflexivity. }
  assert (entry = turn_entry) as Hentry by reflexivity.
  rewrite Hline, Hentry. clear Hline Hentry first_line entry.
  destruct (state_after_log scenario turns agent_list w j)
    as (Hlog & Hctx & _).
  destruct (generate_log scenario turns agent_list w) as (Hlen & Hfin & _).
  fold final in Hlog, Hctx, Hlen, Hfin. fold (after j) in Hlog, Hctx.
  split_and!; try done.
  - intros turn_idx i Hj.
    assert (i < length agent_list)%nat as Hi.
    { pose proof (schedule_valid turns (length agent_list)) as Hv.
      rewrite Forall_lookup in Hv. apply (Hv _ _ Hj). }
    assert (length (agents (after j)) = length agent_list) as Hn
      by apply run_turns_length.
    destruct (lookup_lt_is_Some_2 (agents (after j)) i) as [agent Hagent];
      [lia |].
    exists agent. split; [done |]. intros r m.
    assert (after (S j) = turn_body create turn_idx (after j) i) as Hstep.
    { unfold after, state_after. rewrite (take_S_r _ _ _ Hj).
      by rewrite run_turns_app. }
    destruct (state_after_log scenario turns agent_list w (S j))
      as (Hlog' & _). fold final in Hlog'. fold (after (S j)) in Hlog'.
    rewrite <- Hlog', <- Hlog, Hstep.
    by rewrite (turn_body_unfold create _ _ _ _ Hagent).
  - intros k.
    destruct (state_after_log scenario turns agent_list w (j + k))
      as (_ & Hctx' & _). fold final in Hctx'. fold (after (j + k)%nat) in Hctx'.
    exists (concat (turn_entry <$> take k (drop j (messages_log final)))).
    rewrite Hctx', Hctx, <- take_take_drop, fmap_app, concat_app.
    by rewrite <- app_assoc.
Qed.
End run_properties.

Section run_records.
Context {W : Type} (create : client W).

Lemma generate_run_rounds scenario turns agent_list w :
  let final := generate create scenario turns agent_list w in
  let st := run_turns create (initial_state scenario agent_list w)
              (schedule turns (length agent_list)) in
  agents final = agents st ∧ messages_log final = messages_log st
  ∧ world final = world st.
Proof. unfold generate. by rewrite run_rounds_schedule. Qed.

(** The records of a run: round after round, the agents in the order of
    the list; every reply is a reply of [act]; the configurations and the
    documents of the agents are as before the run. *)
Lemma generate_records scenario turns agent_list w :
  let final := generate create scenario turns agent_list w in
  (λ m, (turn m, speaker m)) <$> messages_log final
  = (t ← seqZ 0 turns; (λ a, (t + 1, name (config a))) <$> agent_list)
  ∧ (∀ P : str → Prop,
       (∀ self ctx w, P (act create self ctx w).1.1) →
       Forall (λ m, P (reply_text m)) (messages_log final))
  ∧ config <$> agents final = config <$> agent_list
  ∧ docs <$> agents final = docs <$> agent_list.
Proof.
  intros final.
  destruct (generate_run_rounds scenario turns agent_list w)
    as (Ha & Hl & _). fold final in Ha, Hl. rewrite Ha, Hl.
  destruct (run_turns_spec create (schedule turns (length agent_list))
              (initial_state scenario agent_list w))
    as (new & Hlog & _ & _ & _ & Hc & Hd & Hsp & _ & HP).
  { apply schedule_valid. }
  rewrite Hlog, Hc, Hd. simpl in *. rewrite Hsp, schedule_speakers. done.
Qed.

(** The agents when [j] turns have been taken. *)
Lemma state_after_agents scenario turns agent_list w (j : nat) :
  let final := generate create scenario turns agent_list w in
  let st := state_after create scenario turns agent_list w j in
  let sched := take j (schedule turns (length agent_list)) in
  let log := take j (messages_log final) in
  length sched = length log
  ∧ config <$> agents st = config <$> agent_list
  ∧ docs <$> agents st = docs <$> agent_list
  ∧ ∀ i, history <$> agents st !! i
         = (λ a, history a
                   ++ (own_reply ∘ reply_text <$> own_records i sched log))
             <$> agent_list !! i.
Proof.
  intros final st sched log.
  destruct (state_after_log create scenario turns agent_list w j)
    as (Hlog & _). fold final st log in Hlog.
  destruct (run_turns_spec create sched
              (initial_state scenario agent_list w))
    as (new & Hlog' & Hnew & _ & _ & Hc & Hd & _ & Hh & _).
  { apply Forall_take, schedule_valid. }
  change (run_turns create _ sched) with st in *. simpl in *.
  rewrite <- Hlog, Hlog'. done.
Qed.

Lemma own_records_length (i : nat) (l : list (Z * nat)) :
  ∀ log : list msg,
    length l = length log → length (own_records i l log) = own_turns i l.
Proof.
  unfold own_turns.
  induction l as [|ti l IH]; intros [|m log] Hlen; try done.
  rewrite own_records_cons. injection Hlen as Hlen.
  destruct (decide (ti.2 = i)) as [Hi | Hi].
  - rewrite filter_cons_True by done. simpl. by rewrite IH.
  - rewrite filter_cons_False by done. by apply IH.
Qed.
End run_records.

(** ** Requests *)

Lemma build_agents_from (fs : FileSystem) (agents_data : list (gmap str str))
    (acc : list Agent) :
  foldl (λ agents a,
           let name := strip (dict_get a (py "name") []) in
           if negb (truthy name) then agents
           else
             let cfg :=
               {| name := name;
                  short_name := name;
                  role_description := dict_get a (py "role") [];
                  strategic_preferences :=
                    dict_get a (py "strategic_preferences") [];
                  knowledge := dict_get a (py "knowledge") [];
                  knowledge_mode := dict_get a (py "knowledge_mode") (py "inline");
                  knowledge_folder := dict_get a (py "knowledge_folder") [] |} in
             agents ++ [Agent_init fs cfg])
        acc agents_data
  = acc ++ (Agent_init fs ∘ config_of
              <$> filter (λ a, valid_config a = true) agents_data).
Proof.
  revert acc. induction agents_data as [|a l IH]; intros acc; simpl.
  - by rewrite app_nil_r.
  - rewrite IH. unfold valid_config at 2.
    destruct (truthy (strip (dict_get a (py "name") []))) eqn:E; simpl.
    + rewrite filter_cons_True by done. by rewrite <- app_assoc.
    + rewrite filter_cons_False; [done |]. unfold valid_config. by rewrite E.
Qed.

(** One agent per valid configuration, in the order of the request. *)
Lemma build_agents_valid (fs : FileSystem) (agents_data : list (gmap str str)) :
  build_agents_from_request fs agents_data
  = Agent_init fs ∘ config_of <$> filter (λ a, valid_config a = true) agents_data.
Proof. apply build_agents_from. Qed.

Lemma simulate_stream_runs {W} (create : client W) fs data w :
  let agent_list :=
    build_agents_from_request fs (default [] (req_agents data)) in
  agent_list ≠ [] →
  simulate_stream create fs data w
  = let st := generate create (strip (default [] (req_scenario data)))
                (default 3 (req_turns data)) agent_list w in
    (Streamed (yielded st), world st).
Proof.
  intros agent_list Hne. unfold simulate_stream. fold agent_list.
  by rewrite bool_decide_true.
Qed.

Lemma two_agents_built (fs : FileSystem) :
  build_agents_from_request fs [trivial_config (py "A"); trivial_config (py "B")]
  = [Agent_init fs (config_of (trivial_config (py "A")));
     Agent_init fs (config_of (trivial_config (py "B")))].
Proof. by rewrite build_agents_valid. Qed.

(** C1 at a concrete run: two agents, two rounds, the stub that answers
    "ok", when one turn has been taken and when two have. *)
Lemma global_context_append_only_witness :
  let agent_list :=
    build_agents_from_request no_files
      [trivial_config (py "A"); trivial_config (py "B")] in
  let after := state_after counting_stub (py "s") 2 agent_list 0%nat in
  schedule 2 (length agent_list) !! 1%nat = Some (1, 1%nat)
  ∧ (∃ agent,
       agents (after 1%nat) !! 1%nat = Some agent
       ∧ global_context (after 2%nat)
         = global_context (after 1%nat)
             ++ py "

[第" ++ str_of_int 1 ++ py "轮 " ++ name (config agent)
             ++ py " 发言]: "
             ++ (act counting_stub agent (global_context (after 1%nat))
                     (world (after 1%nat))).1.1)
  ∧ global_context (after 2%nat)
    = py "场景描述：s

[第1轮 A 发言]: ok

[第1轮 B 发言]: ok".
Proof.
  intros agent_list after.
  assert (schedule 2 (length agent_list) !! 1%nat = Some (1, 1%nat)) as Hj
    by reflexivity.
  split; [exact Hj |].
  destruct (global_context_append_only counting_stub (py "s") 2 agent_list
              0%nat 1) as (_ & Hturn & _).
  destruct (Hturn 1 1%nat Hj) as (agent & Hagent & _ & Hctx).
  split; [| by vm_compute].
  exists agent. split; [exact Hagent | exact Hctx].
Defined.

(** C2. With two rounds, the agents "A" and "B" given by name only, and the
    stub that echoes its last input, [simulate_stream] streams four message
    lines, objects of type [message] whose data give the round and the
    speaker: A in round 1, B in round 1, A in round 2 and B in round 2; and
    then one line of type [done] whose data give [total_messages] 4.  In
    every run the records follow the rounds, 1-based, and within a round the
    order of the agent list, and the lines streamed are the message lines of
    the records followed by the done line with their number. *)
Theorem two_agents_two_rounds_round_robin :
  let message_line := λ m : msg,
    JObj [(py "type", JStr (py "message"));
          (py "data",
           JObj [(py "turn", JInt (turn m)); (py "speaker", JStr (speaker m));
                 (py "content", JStr (reply_text m))])] in
  let done_line := λ total_messages : Z,
    JObj [(py "type", JStr (py "done"));
          (py "data", JObj [(py "total_messages", JInt total_messages)])] in
  (∀ (fs : FileSystem) (scenario : option (list N)),
     ∃ c1 c2 c3 c4,
       simulate_stream echo_stub fs
         {| req_scenario := scenario; req_turns := Some 2;
            req_agents :=
              Some [trivial_config (py "A"); trivial_config (py "B")] |} ()
       = (Streamed
            [message_line {| turn := 1; speaker := py "A"; reply_text := c1 |};
             message_line {| turn := 1; speaker := py "B"; reply_text := c2 |};
             message_line {| turn := 2; speaker := py "A"; reply_text := c3 |};
             message_line {| turn := 2; speaker := py "B"; reply_text := c4 |};
             done_line 4],
          ()))
  ∧ (∀ (W : Type) (create : client W) (scenario : list N) (turns : Z)
       (agent_list : list Agent) (w : W),
       let final := generate create scenario turns agent_list w in
       (λ m, (turn m, speaker m)) <$> messages_log final
       = (t ← seqZ 0 turns; (λ a, (t + 1, name (config a))) <$> agent_list)
       ∧ yielded final
         = (message_line <$> messages_log final)
             ++ [done_line (Z.of_nat (length (messages_log final)))]).
Proof.
  intros message_line done_line.
  assert (message_line = message_chunk) as -> by reflexivity.
  assert (done_line = done_chunk) as -> by reflexivity.
  split.
  - intros fs scenario. rewrite simulate_stream_runs; simpl default.
    + rewrite two_agents_built.
      set (final := generate _ _ _ _ _).
      destruct (generate_records echo_stub (strip (default [] scenario)) 2
                  [Agent_init fs (config_of (trivial_config (py "A")));
                   Agent_init fs (config_of (trivial_config (py "B")))] ())
        as (Horder & _).
      destruct (generate_log echo_stub (strip (default [] scenario)) 2
                  [Agent_init fs (config_of (trivial_config (py "A")));
                   Agent_init fs (config_of (trivial_config (py "B")))] ())
        as (_ & _ & Hout).
      fold final in Horder, Hout. cbv zeta. rewrite Hout.
      destruct (world final).
      destruct (messages_log final) as [|m1 [|m2 [|m3 [|m4 [|m5 log]]]]];
        try discriminate Horder.
      destruct m1 as [t1 s1 c1], m2 as [t2 s2 c2], m3 as [t3 s3 c3],
        m4 as [t4 s4 c4].
      injection Horder as -> -> -> -> -> -> -> ->.
      by exists c1, c2, c3, c4.
    + by rewrite two_agents_built.
  - intros W create scenario turns agent_list w final. split.
    + apply generate_records.
    + apply generate_log.
Qed.

(** C3. When every call of the text-generation service raises, a run still
    streams one message line per turn, [turns * agentCount] of them, each an
    object of type [message] whose content is the failure notice (the text
    of the error between the brackets of the notice), and after them one line
    of type [done] with their number, not a line of type [error]. *)
Theorem failing_service_run_completes {W : Type} (create : client W)
    (fs : FileSystem) (data : request) (w : W) :
  let message_line := λ m : msg,
    JObj [(py "type", JStr (py "message"));
          (py "data",
           JObj [(py "turn", JInt (turn m)); (py "speaker", JStr (speaker m));
                 (py "content", JStr (reply_text m))])] in
  let done_line := λ total_messages : Z,
    JObj [(py "type", JStr (py "done"));
          (py "data", JObj [(py "total_messages", JInt total_messages)])] in
  (∀ model temperature messages w0,
     ∃ repr_e w1, create model temperature messages w0 = (Raised repr_e, w1)) →
  build_agents_from_request fs (default [] (req_agents data)) ≠ [] →
  ∃ log,
    (simulate_stream create fs data w).1
    = Streamed ((message_line <$> log)
                  ++ [done_line (Z.of_nat (length log))])
    ∧ length log
      = (Z.to_nat (default 3%Z (req_turns data))
         * length (build_agents_from_request fs (default [] (req_agents data))))%nat
    ∧ Forall (λ m, ∃ repr_e,
                reply_text m = py "[LLM 调用出错：" ++ repr_e ++ py "]") log.
Proof.
  intros message_line done_line Hfail Hagents.
  assert (message_line = message_chunk) as -> by reflexivity.
  assert (done_line = done_chunk) as -> by reflexivity.
  rewrite simulate_stream_runs by done. cbv zeta.
  set (final := generate _ _ _ _ _). exists (messages_log final).
  change ((Streamed (yielded final), world final).1)
    with (Streamed (yielded final)).
  destruct (generate_log create (strip (default [] (req_scenario data)))
              (default 3 (req_turns data))
              (build_agents_from_request fs (default [] (req_agents data))) w)
    as (Hlen & _ & Hout).
  destruct (generate_records create (strip (default [] (req_scenario data)))
              (default 3 (req_turns data))
              (build_agents_from_request fs (default [] (req_agents data))) w)
    as (_ & HP & _).
  fold final in Hlen, Hout, HP. rewrite Hout. split_and!; [done | done |].
  apply (HP (λ reply, ∃ repr_e,
               reply = py "[LLM 调用出错：" ++ repr_e ++ py "]")).
  intros self ctx w0. rewrite act_unfold. cbn [fst].
  apply call_llm_failure, Hfail.
Qed.

Lemma failing_service_run_completes_witness :
  let data :=
    {| req_scenario := Some (py "s"); req_turns := Some 1;
       req_agents := Some [trivial_config (py "A"); trivial_config (py "B")] |} in
  let create := failing_stub (py "ConnectionError()") in
  (∀ model temperature messages w0,
     ∃ repr_e w1, create model temperature messages w0 = (Raised repr_e, w1))
  ∧ build_agents_from_request no_files (default [] (req_agents data)) ≠ []
  ∧ (∃ log,
       (simulate_stream create no_files data ()).1
       = Streamed
           (((λ m : msg,
                JObj [(py "type", JStr (py "message"));
                      (py "data",
                       JObj [(py "turn", JInt (turn m));
                             (py "speaker", JStr (speaker m));
                             (py "content", JStr (reply_text m))])]) <$> log)
              ++ [JObj [(py "type", JStr (py "done"));
                        (py "data",
                         JObj [(py "total_messages",
                                JInt (Z.of_nat (length log)))])]])
       ∧ length log = 2%nat
       ∧ Forall (λ m, ∃ repr_e,
                   reply_text m = py "[LLM 调用出错：" ++ repr_e ++ py "]") log)
  ∧ (simulate_stream create no_files data ()).1
    = Streamed
        [JObj [(py "type", JStr (py "message"));
               (py "data",
                JObj [(py "turn", JInt 1); (py "speaker", JStr (py "A"));
                      (py "content",
                       JStr (py "[LLM 调用出错：ConnectionError()]"))])];
         JObj [(py "type", JStr (py "message"));
               (py "data",
                JObj [(py "turn", JInt 1); (py "speaker", JStr (py "B"));
                      (py "content",
                       JStr (py "[LLM 调用出错：ConnectionError()]"))])];
         JObj [(py "type", JStr (py "done"));
               (py "data", JObj [(py "total_messages", JInt 2)])]].
Proof.
  intros data create.
  assert (∀ model temperature messages w0,
            ∃ repr_e w1,
              create model temperature messages w0 = (Raised repr_e, w1)) as H1.
  { intros model temperature messages w0.
    exists (py "ConnectionError()"), w0. reflexivity. }
  assert (build_agents_from_request no_files (default [] (req_agents data))
          ≠ []) as H2 by (vm_compute; discriminate).
  split; [exact H1 |]. split; [exact H2 |].
  split; [| by vm_compute].
  exact (failing_service_run_completes create no_files data () H1 H2).
Defined.

(** C10. With a turn count of zero or less and at least one valid agent, the
    request is not rejected: the run streams one line and no more, the
    object of type [done] whose data give [total_messages] 0, and the service
    is not called. *)
Theorem nonpositive_turns_only_done {W : Type} (create : client W)
    (fs : FileSystem) (data : request) (w : W) :
  default 3 (req_turns data) ≤ 0 →
  build_agents_from_request fs (default [] (req_agents data)) ≠ [] →
  simulate_stream create fs data w
  = (Streamed [JObj [(py "type", JStr (py "done"));
                     (py "data", JObj [(py "total_messages", JInt 0)])]],
     w).
Proof.
  intros Hturns Hagents. rewrite simulate_stream_runs by done. cbv zeta.
  unfold generate. rewrite run_rounds_schedule. unfold schedule.
  rewrite seqZ_nil by done. reflexivity.
Qed.

Lemma nonpositive_turns_only_done_witness :
  let data :=
    {| req_scenario := Some (py "s"); req_turns := Some (-2);
       req_agents := Some [trivial_config (py "A")] |} in
  default 3 (req_turns data) ≤ 0
  ∧ build_agents_from_request no_files (default [] (req_agents data)) ≠ []
  ∧ simulate_stream echo_stub no_files data ()
    = (Streamed [JObj [(py "type", JStr (py "done"));
                       (py "data", JObj [(py "total_messages", JInt 0)])]],
       ()).
Proof.
  intros data.
  assert (default 3 (req_turns data) ≤ 0) as H1 by (simpl; lia).
  assert (build_agents_from_request no_files (default [] (req_agents data))
          ≠ []) as H2 by (vm_compute; discriminate).
  split; [exact H1 |]. split; [exact H2 |].
  exact (nonpositive_turns_only_done echo_stub no_files data () H1 H2).
Defined.

(** C7. A request of which no agent configuration is valid (every name is
    missing or blank) is answered with the error body and status 400; no turn
    is taken, no line is streamed and the service is not called.  An invalid
    configuration among valid ones is skipped: the agents are those of the
    valid configurations, in order, and the run is streamed. *)
Theorem no_valid_agents_rejected {W : Type} (create : client W)
    (fs : FileSystem) (data : request) (w : W) :
  let agents_data := default [] (req_agents data) in
  (Forall (λ a, valid_config a = false) agents_data →
   simulate_stream create fs data w
   = (JsonStatus (JObj [(py "error", JStr (py "No valid agents provided."))])
                 400, w))
  ∧ build_agents_from_request fs agents_data
    = Agent_init fs ∘ config_of
        <$> filter (λ a, valid_config a = true) agents_data
  ∧ (Exists (λ a, valid_config a = true) agents_data →
     ∃ lines w', simulate_stream create fs data w = (Streamed lines, w')).
Proof.
  intros agents_data. split_and!.
  - intros Hnone. unfold simulate_stream. fold agents_data.
    rewrite build_agents_valid.
    rewrite (filter_none (λ a, valid_config a = true) agents_data).
    + reflexivity.
    + eapply Forall_impl; [exact Hnone |]. simpl. intros a ->. done.
  - apply build_agents_valid.
  - intros Hsome. rewrite simulate_stream_runs; [cbv zeta; eauto |].
    fold agents_data. rewrite build_agents_valid.
    apply Exists_exists in Hsome as (a & Ha & Hvalid).
    intros Hnil.
    assert (a ∈ filter (λ a, valid_config a = true) agents_data) as Hin
      by (by apply list_elem_of_filter).
    destruct (filter _ agents_data); [by apply elem_of_nil in Hin | done].
Qed.

Lemma no_valid_agents_rejected_witness :
  let nameless : gmap str str := {[ py "role" := py "observer" ]} in
  let blank := trivial_config (py "  ") in
  let named := trivial_config (py "A") in
  Forall (λ a, valid_config a = false) [nameless; blank]
  ∧ simulate_stream echo_stub no_files
      {| req_scenario := None; req_turns := None;
         req_agents := Some [nameless; blank] |} ()
    = (JsonStatus (JObj [(py "error", JStr (py "No valid agents provided."))])
                  400, ())
  ∧ Exists (λ a, valid_config a = true) [nameless; named; blank]
  ∧ length (build_agents_from_request no_files [nameless; named; blank]) = 1%nat
  ∧ ∃ lines w',
      simulate_stream echo_stub no_files
        {| req_scenario := None; req_turns := None;
           req_agents := Some [nameless; named; blank] |} ()
      = (Streamed lines, w').
Proof.
  intros nameless blank named.
  assert (Forall (λ a, valid_config a = false) [nameless; blank]) as H1
    by (repeat constructor).
  assert (Exists (λ a, valid_config a = true) [nameless; named; blank]) as H2
    by (apply Exists_cons_tl, Exists_cons_hd; reflexivity).
  split; [exact H1 |]. split.
  { exact (proj1 (no_valid_agents_rejected echo_stub no_files
                    {| req_scenario := None; req_turns := None;
                       req_agents := Some [nameless; blank] |} ()) H1). }
  split; [exact H2 |]. split; [reflexivity |].
  exact (proj2 (proj2 (no_valid_agents_rejected echo_stub no_files
                         {| req_scenario := None; req_turns := None;
                            req_agents := Some [nameless; named; blank] |} ()))
           H2).
Defined.

(** C8. Every call of [act] appends the reply it returns, tagged
    [assistant], to the history of the agent.  So after [K] calls on a newly
    built agent the history holds the [K] replies in the order of the calls;
    and in a run, when any number of turns have been taken, the history of the
    agent at position [i] holds the replies of its own records, in order, and
    has grown by the number of its own turns, whatever the other agents
    did. *)
Theorem agent_history_holds_own_replies {W : Type} (create : client W) :
  (∀ (self : Agent) (global_context : str) (w : W),
     let r := act create self global_context w in
     history r.1.2 = history self ++ [Message (py "assistant") r.1.1])
  ∧ (∀ (fs : FileSystem) (cfg : AgentConfig) (contexts : list str) (w : W),
       let r := act_seq create (Agent_init fs cfg) contexts w in
       history r.1.2 = Message (py "assistant") <$> r.1.1
       ∧ length (history r.1.2) = length contexts)
  ∧ (∀ (scenario : str) (turns : Z) (agent_list : list Agent) (w : W)
       (j i : nat),
       let final := generate create scenario turns agent_list w in
       let st := state_after create scenario turns agent_list w j in
       let own :=
         own_records i (take j (schedule turns (length agent_list)))
                     (take j (messages_log final)) in
       history <$> agents st !! i
       = (λ a, history a ++ (Message (py "assistant") ∘ reply_text <$> own))
           <$> agent_list !! i
       ∧ length own
         = own_turns i (take j (schedule turns (length agent_list)))).
Proof.
  split_and!.
  - intros self ctx w. apply act_history.
  - intros fs cfg contexts w r.
    destruct (act_seq_spec create contexts (Agent_init fs cfg) w)
      as (Hh & Hlen & _). fold r in Hh, Hlen.
    rewrite Hh. simpl. by rewrite length_fmap.
  - intros scenario turns agent_list w j i final st own.
    destruct (state_after_agents create scenario turns agent_list w j)
      as (Hlen & _ & _ & Hh). split; [apply Hh |].
    by apply own_records_length.
Qed.

(** C9. A call of [act] leaves the configuration and the documents of the
    agent as they are.  A turn of the run changes no agent but the one that
    acts, and of that one the history only; it extends the global context by
    the entry of the turn, which the orchestrator appends.  Throughout a run
    the configurations and the documents of the agents are those the run
    started with. *)
Theorem act_changes_own_history_only {W : Type} (create : client W) :
  (∀ (self : Agent) (global_context : str) (w : W),
     let self' := (act create self global_context w).1.2 in
     config self' = config self ∧ docs self' = docs self)
  ∧ (∀ (turn_idx : Z) (st : run_state W) (i : nat),
       let st' := turn_body create turn_idx st i in
       (∀ k, k ≠ i → agents st' !! k = agents st !! k)
       ∧ config <$> agents st' = config <$> agents st
       ∧ docs <$> agents st' = docs <$> agents st
       ∧ ∀ agent, agents st !! i = Some agent →
           let r := act create agent (global_context st) (world st) in
           agents st' !! i = Some r.1.2
           ∧ global_context st'
             = global_context st
                 ++ turn_entry {| turn := turn_idx;
                                  speaker := name (config agent);
                                  reply_text := r.1.1 |})
  ∧ (∀ (scenario : str) (turns : Z) (agent_list : list Agent) (w : W)
       (j : nat),
       let st := state_after create scenario turns agent_list w j in
       let final := generate create scenario turns agent_list w in
       config <$> agents st = config <$> agent_list
       ∧ docs <$> agents st = docs <$> agent_list
       ∧ config <$> agents final = config <$> agent_list
       ∧ docs <$> agents final = docs <$> agent_list).
Proof.
  split_and!.
  - intros self ctx w. split; [apply act_config | apply act_docs].
  - intros turn_idx st i st'.
    destruct (agents st !! i) as [agent|] eqn:Hagent.
    + pose proof (turn_body_unfold create turn_idx st i agent Hagent) as Hstep.
      fold st' in Hstep. simpl in Hstep. rewrite Hstep. simpl.
      split_and!.
      * intros k Hk. by rewrite list_lookup_insert_ne.
      * rewrite list_fmap_insert. apply list_insert_id.
        by rewrite list_lookup_fmap, Hagent, act_config.
      * rewrite list_fmap_insert. apply list_insert_id.
        by rewrite list_lookup_fmap, Hagent, act_docs.
      * intros ? [= <-]. split; [| done].
        apply list_lookup_insert_eq. by eapply lookup_lt_Some.
    + assert (st' = st) as -> by (unfold st', turn_body; by rewrite Hagent).
      split_and!; done.
  - intros scenario turns agent_list w j st final.
    destruct (state_after_agents create scenario turns agent_list w j)
      as (_ & Hc & Hd & _).
    destruct (generate_records create scenario turns agent_list w)
      as (_ & _ & Hc' & Hd'). done.
Qed.

Lemma act_changes_own_history_only_witness :
  let agent_list :=
    build_agents_from_request no_files
      [trivial_config (py "A"); trivial_config (py "B")] in
  let st := initial_state (py "s") agent_list () in
  let st' := turn_body echo_stub 1 st 0 in
  1%nat ≠ 0%nat
  ∧ agents st' !! 1%nat = agents st !! 1%nat
  ∧ ∃ agent,
      agents st !! 0%nat = Some agent
      ∧ agents st' !! 0%nat
        = Some (act echo_stub agent (global_context st) (world st)).1.2.
Proof.
  intros agent_list st st'.
  destruct (act_changes_own_history_only echo_stub) as (_ & Hturn & _).
  destruct (Hturn 1 st 0%nat) as (Hothers & _ & _ & Hown).
  assert (1%nat ≠ 0%nat) as Hne by discriminate.
  split; [exact Hne |]. split; [exact (Hothers 1%nat Hne) |].
  exists (Agent_init no_files (config_of (trivial_config (py "A")))).
  assert (agents st !! 0%nat
          = Some (Agent_init no_files (config_of (trivial_config (py "A")))))
    as Hagent by reflexivity.
  split; [exact Hagent |].
  exact (proj1 (Hown _ Hagent)).
Defined.

(** ** The knowledge base *)

Lemma load_files_from (root : str) (files : list (str * read_result))
    (docs : list str) :
  foldl (load_file root) docs files
  = docs ++ omap (document_of root)
                 (filter (λ f, in_exts (lower (splitext_ext f.1)) = true) files).
Proof.
  revert docs. induction files as [|[fname r] files IH]; intros docs; simpl.
  - by rewrite app_nil_r.
  - rewrite IH. destruct (in_exts (lower (splitext_ext fname))) eqn:E; simpl.
    + rewrite filter_cons_True by done. unfold document_of. simpl.
      destruct r as [raw | str_e]; simpl.
      * destruct (truthy (strip raw)); [| done]. by rewrite <- app_assoc.
      * by rewrite <- app_assoc.
    + rewrite filter_cons_False; [done |]. simpl. by rewrite E.
Qed.

Lemma load_walk_from
    (triples : list (str * list str * list (str * read_result)))
    (docs : list str) :
  foldl (λ docs '(root, _, files), foldl (load_file root) docs files)
        docs triples
  = docs ++ omap (λ rf, document_of rf.1 rf.2) (recognized_files triples).
Proof.
  revert docs. induction triples as [|[[root dirs] files] triples IH];
    intros docs; cbn [foldl].
  - by rewrite app_nil_r.
  - rewrite IH, load_files_from. unfold recognized_files.
    rewrite bind_cons, omap_app, <- app_assoc. do 2 f_equal.
    generalize (filter (λ f, in_exts (lower (splitext_ext f.1)) = true) files).
    intros l. induction l as [|f l IHl]; csimpl; [done |].
    rewrite IHl. done.
Qed.

(** The documents of a folder: those of the recognized files of the walk,
    in the order of the walk. *)
Lemma load_text_files_spec (fs : FileSystem) (folder_path : str) :
  load_text_files_from_folder fs folder_path
  = if truthy folder_path && isdir fs (expanduser fs folder_path)
    then omap (λ rf, document_of rf.1 rf.2)
              (recognized_files (os_walk fs (expanduser fs folder_path)))
    else [].
Proof.
  unfold load_text_files_from_folder.
  destruct (truthy folder_path); [| done]. simpl.
  destruct (isdir fs (expanduser fs folder_path)); [| done]. simpl.
  apply load_walk_from.
Qed.

(** The walk of a folder contains the walks of its sub-folders. *)
Lemma walk_subfolder (top nm : str) (sub : fnode)
    (entries : list (str * fnode)) :
  (nm, sub) ∈ entries →
  ∀ x, x ∈ walk (path_join top nm) sub → x ∈ walk top (Folder entries).
Proof.
  intros Hin x Hx. simpl. apply list_elem_of_further.
  induction entries as [|[nm' sub'] entries IH]; [by apply elem_of_nil in Hin |].
  apply elem_of_app. apply elem_of_cons in Hin as [[= <- <-] | Hin]; auto.
Qed.

(** C6, as the code has it.  The knowledge base of a new agent is the inline
    knowledge, if not empty, as one document, followed, if the knowledge mode
    is [folder] and a folder path is given, by the documents of the folder.
    These are, for the recognized files ([.txt], [.md], [.log], in any
    letter case) of the folder and of its sub-folders, in the order of the
    walk: for a file that is read and is not blank, its stripped text tagged
    with the file name; for a file that fails to read, a failure notice with
    the path of the file; a file that is blank gives no document.  A path
    that names no folder and a folder without entries give no document. *)
Theorem knowledge_base_built_in_order (fs : FileSystem) (cfg : AgentConfig) :
  let inline := if truthy (knowledge cfg) then [knowledge cfg] else [] in
  let path := expanduser fs (knowledge_folder cfg) in
  let from_folder := load_text_files_from_folder fs (knowledge_folder cfg) in
  docs (Agent_init fs cfg)
  = inline
      ++ (if bool_decide (knowledge_mode cfg = py "folder")
             && truthy (knowledge_folder cfg)
          then from_folder else [])
  ∧ (knowledge_folder cfg ≠ [] → isdir fs path = true →
     from_folder
     = omap (λ rf, document_of rf.1 rf.2) (recognized_files (os_walk fs path)))
  ∧ (∀ top nm sub entries x,
       (nm, sub) ∈ entries →
       x ∈ walk (path_join top nm) sub → x ∈ walk top (Folder entries))
  ∧ (isdir fs path = false → from_folder = [])
  ∧ (resolve fs path = Some (Folder []) → from_folder = []).
Proof.
  intros inline path from_folder. unfold from_folder.
  rewrite load_text_files_spec. fold path. split_and!.
  - unfold Agent_init. simpl. rewrite load_text_files_spec. fold path.
    unfold inline. destruct (truthy (knowledge cfg)); simpl;
      by destruct (bool_decide _ && truthy _).
  - intros Hpath%truthy_true ->. by rewrite Hpath.
  - intros top nm sub entries x Hin Hx. by eapply walk_subfolder.
  - intros ->. by rewrite andb_false_r.
  - intros Hempty. unfold os_walk, isdir. rewrite Hempty.
    by destruct (truthy (knowledge_folder cfg)).
Qed.

Lemma knowledge_base_built_in_order_witness :
  let kb :=
    Folder [(py "a.TXT", File (ReadText (py " alpha
")));
            (py "b.md", File (ReadError (py "denied")));
            (py "c.pdf", File (ReadText (py "gamma")));
            (py "sub", Folder [(py "d.log", File (ReadText (py "delta")));
                               (py "e.txt", File (ReadText (py "  ")))])] in
  let fs :=
    {| expanduser := λ path, path;
       resolve := λ path, if bool_decide (path = py "kb") then Some kb else None |} in
  let cfg :=
    {| name := py "A"; short_name := py "A"; role_description := [];
       strategic_preferences := []; knowledge := py "inline text";
       knowledge_mode := py "folder"; knowledge_folder := py "kb" |} in
  knowledge_folder cfg ≠ []
  ∧ isdir fs (expanduser fs (knowledge_folder cfg)) = true
  ∧ load_text_files_from_folder fs (knowledge_folder cfg)
    = omap (λ rf, document_of rf.1 rf.2)
           (recognized_files (os_walk fs (expanduser fs (knowledge_folder cfg))))
  ∧ docs (Agent_init fs cfg)
    = [py "inline text";
       py "【文件：a.TXT】
alpha";
       py "【读取失败：kb/b.md】denied";
       py "【文件：d.log】
delta"].
Proof.
  intros kb fs cfg.
  assert (knowledge_folder cfg ≠ []) as H1 by discriminate.
  assert (isdir fs (expanduser fs (knowledge_folder cfg)) = true) as H2
    by reflexivity.
  split; [exact H1 |]. split; [exact H2 |].
  destruct (knowledge_base_built_in_order fs cfg) as (_ & Hload & _).
  split; [exact (Hload H1 H2) | by vm_compute].
Defined.

(** The claim C6 as the specification words it fails for a blank file: the
    folder holds one file of a recognized extension, and the knowledge base
    holds no document. *)
Lemma blank_file_counterexample :
  let fs :=
    {| expanduser := λ path, path;
       resolve := λ path,
         if bool_decide (path = py "kb")
         then Some (Folder [(py "notes.txt", File (ReadText (py "  ")))])
         else None |} in
  let cfg :=
    {| name := py "A"; short_name := py "A"; role_description := [];
       strategic_preferences := []; knowledge := [];
       knowledge_mode := py "folder"; knowledge_folder := py "kb" |} in
  length (recognized_files (os_walk fs (py "kb"))) = 1%nat
  ∧ docs (Agent_init fs cfg) = []
  ∧ length (docs (Agent_init fs cfg))
    ≠ length (recognized_files (os_walk fs (py "kb"))).
Proof. intros fs cfg. by vm_compute. Qed.


(** * Further properties of the code *)

(** ** The two routes *)

Section once_facts.
Context {W : Type} (create : client W).

Lemma once_turn_body_view (turn_idx : Z) (st : run_state W) (i : nat) :
  once_turn_body create turn_idx (once_view st) i
  = once_view (turn_body create turn_idx st i).
Proof.
  unfold once_turn_body, turn_body, once_view. simpl.
  destruct (agents st !! i) as [agent|]; [| done].
  by destruct (act create agent _ _) as [[reply agent'] w'].
Qed.

Lemma once_inner_view (turn_idx : Z) (l : list nat) :
  ∀ st : run_state W,
    foldl (once_turn_body create turn_idx) (once_view st) l
    = once_view (foldl (turn_body create turn_idx) st l).
Proof.
  induction l as [|i l IH]; intros st; [done |].
  cbn [foldl]. by rewrite once_turn_body_view, IH.
Qed.

(** The loop of [simulate_once] goes through the states of the loop of
    [generate], lines left aside. *)
Lemma once_rounds_view (turns : Z) (st : run_state W) :
  once_rounds create turns (once_view st)
  = once_view (run_rounds create turns st).
Proof.
  unfold once_rounds, run_rounds. generalize (seqZ 0 turns). intros ts.
  revert st. induction ts as [|t ts IH]; intros st; [done |].
  cbn [foldl]. rewrite <- IH. f_equal. unfold round_body.
  apply once_inner_view.
Qed.

(** X1. The two routes agree.  A request that [simulate_stream] rejects is
    rejected by [simulate_once] with the same body and status.  For any other
    request there is one list of records such that [simulate_once] returns
    their objects (round, speaker, content) as its messages and
    [simulate_stream] streams, in the same order, one line of type [message]
    with the same object as data for each, and then the line of type [done]
    with their number; and both leave the service in the same state. *)
Theorem simulate_once_agrees_with_stream
    (fs : FileSystem) (data : request) (w : W) :
  let message_data := λ m : msg,
    JObj [(py "turn", JInt (turn m)); (py "speaker", JStr (speaker m));
          (py "content", JStr (reply_text m))] in
  let message_line := λ m : msg,
    JObj [(py "type", JStr (py "message")); (py "data", message_data m)] in
  let done_line := λ total_messages : Z,
    JObj [(py "type", JStr (py "done"));
          (py "data", JObj [(py "total_messages", JInt total_messages)])] in
  (build_agents_from_request fs (default [] (req_agents data)) = [] →
   simulate_once create fs data w
   = (OnceStatus (JObj [(py "error", JStr (py "No valid agents provided."))])
                 400, w)
   ∧ simulate_stream create fs data w
     = (JsonStatus (JObj [(py "error", JStr (py "No valid agents provided."))])
                   400, w))
  ∧ (build_agents_from_request fs (default [] (req_agents data)) ≠ [] →
     ∃ log w',
       simulate_once create fs data w = (OnceMessages (message_data <$> log), w')
       ∧ simulate_stream create fs data w
         = (Streamed ((message_line <$> log)
                        ++ [done_line (Z.of_nat (length log))]), w')).
Proof.
  intros message_data message_line done_line.
  assert (message_data = json_of_msg) as -> by reflexivity.
  assert (message_line = message_chunk) as -> by reflexivity.
  assert (done_line = done_chunk) as -> by reflexivity.
  split.
  - intros Hnone. unfold simulate_once, simulate_stream. rewrite Hnone. done.
  - intros Hsome. rewrite simulate_stream_runs by done. cbv zeta.
    set (scenario := strip (default [] (req_scenario data))).
    set (turns := default 3 (req_turns data)).
    set (agent_list := build_agents_from_request fs _) in *.
    set (final := generate create scenario turns agent_list w).
    exists (messages_log final), (world final).
    destruct (generate_log create scenario turns agent_list w)
      as (_ & _ & Hout). fold final in Hout. rewrite Hout. split; [| done].
    unfold simulate_once. fold scenario turns agent_list.
    rewrite bool_decide_true by done. cbn [negb].
    change {| once_agents := agent_list; once_messages_log := [];
              once_global_context := scenario_line scenario;
              once_world := w |}
      with (once_view (initial_state scenario agent_list w)).
    by rewrite once_rounds_view.
Qed.
End once_facts.

Lemma simulate_once_agrees_with_stream_witness :
  let data :=
    {| req_scenario := Some (py "s"); req_turns := Some 1;
       req_agents := Some [trivial_config (py "A"); trivial_config (py "B")] |} in
  let rejected :=
    {| req_scenario := Some (py "s"); req_turns := Some 1;
       req_agents := Some [trivial_config (py " ")] |} in
  build_agents_from_request no_files (default [] (req_agents rejected)) = []
  ∧ (simulate_once counting_stub no_files rejected 0%nat).1
    = OnceStatus (JObj [(py "error", JStr (py "No valid agents provided."))]) 400
  ∧ build_agents_from_request no_files (default [] (req_agents data)) ≠ []
  ∧ (∃ log w',
       simulate_once counting_stub no_files data 0%nat
       = (OnceMessages
            ((λ m : msg,
                JObj [(py "turn", JInt (turn m));
                      (py "speaker", JStr (speaker m));
                      (py "content", JStr (reply_text m))]) <$> log), w')
       ∧ simulate_stream counting_stub no_files data 0%nat
         = (Streamed
              (((λ m : msg,
                   JObj [(py "type", JStr (py "message"));
                         (py "data",
                          JObj [(py "turn", JInt (turn m));
                                (py "speaker", JStr (speaker m));
                                (py "content", JStr (reply_text m))])])
                  <$> log)
                 ++ [JObj [(py "type", JStr (py "done"));
                           (py "data",
                            JObj [(py "total_messages",
                                   JInt (Z.of_nat (length log)))])]]), w'))
  ∧ simulate_once counting_stub no_files data 0%nat
    = (OnceMessages
         [JObj [(py "turn", JInt 1); (py "speaker", JStr (py "A"));
                (py "content", JStr (py "ok"))];
          JObj [(py "turn", JInt 1); (py "speaker", JStr (py "B"));
                (py "content", JStr (py "ok"))]], 2%nat).
Proof.
  intros data rejected.
  assert (build_agents_from_request no_files (default [] (req_agents rejected))
          = []) as H1 by reflexivity.
  assert (build_agents_from_request no_files (default [] (req_agents data))
          ≠ []) as H2 by (vm_compute; discriminate).
  split; [exact H1 |]. split.
  { destruct (proj1 (simulate_once_agrees_with_stream counting_stub no_files
                       rejected 0%nat) H1) as [Honce _].
    by rewrite Honce. }
  split; [exact H2 |]. split; [| by vm_compute].
  exact (proj2 (simulate_once_agrees_with_stream counting_stub no_files data
                  0%nat) H2).
Defined.

(** ** The shape of a run *)

(** X2. Every accepted request is answered by one line of type [message]
    per turn, whose data give the round, the speaker and the reply, round
    after round (numbered from 1) and within a round in the order of the
    agents, followed by one line of type [done] whose [total_messages] is the
    number of the message lines; there are [turns * agentCount] of them, none
    for a turn count below one, and three rounds are played when the request
    gives no turn count. *)
Theorem accepted_request_stream_shape {W : Type} (create : client W)
    (fs : FileSystem) (data : request) (w : W) :
  let message_line := λ m : msg,
    JObj [(py "type", JStr (py "message"));
          (py "data",
           JObj [(py "turn", JInt (turn m)); (py "speaker", JStr (speaker m));
                 (py "content", JStr (reply_text m))])] in
  let done_line := λ total_messages : Z,
    JObj [(py "type", JStr (py "done"));
          (py "data", JObj [(py "total_messages", JInt total_messages)])] in
  let agent_list :=
    build_agents_from_request fs (default [] (req_agents data)) in
  agent_list ≠ [] →
  ∃ log w',
    simulate_stream create fs data w
    = (Streamed ((message_line <$> log)
                   ++ [done_line (Z.of_nat (length log))]), w')
    ∧ (λ m, (turn m, speaker m)) <$> log
      = (t ← seqZ 0 (default 3 (req_turns data));
         (λ a, (t + 1, name (config a))) <$> agent_list)
    ∧ length log
      = (Z.to_nat (default 3%Z (req_turns data)) * length agent_list)%nat
    ∧ (req_turns data = None → length log = (3 * length agent_list)%nat).
Proof.
  intros message_line done_line agent_list Hagents.
  assert (message_line = message_chunk) as -> by reflexivity.
  assert (done_line = done_chunk) as -> by reflexivity.
  rewrite simulate_stream_runs by done. cbv zeta.
  fold agent_list.
  set (final := generate _ _ _ _ _).
  exists (messages_log final), (world final).
  destruct (generate_log create (strip (default [] (req_scenario data)))
              (default 3 (req_turns data)) agent_list w) as (Hlen & _ & Hout).
  destruct (generate_records create (strip (default [] (req_scenario data)))
              (default 3 (req_turns data)) agent_list w) as (Horder & _).
  fold final in Hlen, Hout, Horder. rewrite Hout.
  split_and!; [done | done | done |].
  intros Hnone. rewrite Hlen, Hnone. done.
Qed.

Lemma accepted_request_stream_shape_witness :
  let data :=
    {| req_scenario := None; req_turns := None;
       req_agents := Some [trivial_config (py "A")] |} in
  build_agents_from_request no_files (default [] (req_agents data)) ≠ []
  ∧ req_turns data = None
  ∧ (∃ log w',
       simulate_stream counting_stub no_files data 0%nat
       = (Streamed
            (((λ m : msg,
                 JObj [(py "type", JStr (py "message"));
                       (py "data",
                        JObj [(py "turn", JInt (turn m));
                              (py "speaker", JStr (speaker m));
                              (py "content", JStr (reply_text m))])])
                <$> log)
               ++ [JObj [(py "type", JStr (py "done"));
                         (py "data",
                          JObj [(py "total_messages",
                                 JInt (Z.of_nat (length log)))])]]), w')
       ∧ length log = 3%nat)
  ∧ simulate_stream counting_stub no_files data 0%nat
    = (Streamed
         [JObj [(py "type", JStr (py "message"));
                (py "data",
                 JObj [(py "turn", JInt 1); (py "speaker", JStr (py "A"));
                       (py "content", JStr (py "ok"))])];
          JObj [(py "type", JStr (py "message"));
                (py "data",
                 JObj [(py "turn", JInt 2); (py "speaker", JStr (py "A"));
                       (py "content", JStr (py "ok"))])];
          JObj [(py "type", JStr (py "message"));
                (py "data",
                 JObj [(py "turn", JInt 3); (py "speaker", JStr (py "A"));
                       (py "content", JStr (py "ok"))])];
          JObj [(py "type", JStr (py "done"));
                (py "data", JObj [(py "total_messages", JInt 3)])]],
       3%nat).
Proof.
  intros data.
  assert (build_agents_from_request no_files (default [] (req_agents data))
          ≠ []) as H1 by (vm_compute; discriminate).
  assert (req_turns data = None) as H2 by reflexivity.
  split; [exact H1 |]. split; [exact H2 |]. split; [| by vm_compute].
  destruct (accepted_request_stream_shape counting_stub no_files data 0%nat H1)
    as (log & w' & Hout & _ & _ & Hthree).
  exists log, w'. split; [exact Hout | exact (Hthree H2)].
Defined.

Lemma own_turns_round (t : Z) (i : nat) (m a : nat) :
  own_turns i ((λ k, (t, k)) <$> seq a m)
  = if bool_decide (a ≤ i < a + m)%nat then 1%nat else 0%nat.
Proof.
  unfold own_turns. revert a. induction m as [|m IH]; intros a; csimpl.
  - rewrite bool_decide_false by lia. done.
  - destruct (decide (a = i)) as [-> | Hne].
    + rewrite filter_cons_True by done. simpl. rewrite IH.
      rewrite bool_decide_false by lia. rewrite bool_decide_true by lia. done.
    + rewrite filter_cons_False by done. rewrite IH.
      destruct (decide (a ≤ i < a + S m)%nat).
      * rewrite !bool_decide_true by lia. done.
      * rewrite !bool_decide_false by lia. done.
Qed.

(** In the schedule of a run every agent has one turn per round. *)
Lemma own_turns_schedule (turns : Z) (n i : nat) :
  (i < n)%nat → own_turns i (schedule turns n) = Z.to_nat turns.
Proof.
  intros Hi. unfold schedule. rewrite <- (length_seqZ 0 turns).
  generalize (seqZ 0 turns). intros ts.
  induction ts as [|t ts IH]; [done |].
  rewrite bind_cons. unfold own_turns in *.
  rewrite filter_app, length_app, IH.
  pose proof (own_turns_round (t + 1) i n 0) as Hround.
  unfold own_turns in Hround. rewrite Hround.
  rewrite bool_decide_true by lia. done.
Qed.

(** X3. Round-robin is fair: at the end of a run every agent has had exactly
    one turn per round, so its history has grown by [turns] entries (by none
    for a turn count below one), and the agents are as many as before. *)
Theorem every_agent_speaks_once_per_round {W : Type} (create : client W)
    (scenario : str) (turns : Z) (agent_list : list Agent) (w : W) :
  let final := generate create scenario turns agent_list w in
  length ∘ history <$> agents final
  = (λ a, (length (history a) + Z.to_nat turns)%nat) <$> agent_list.
Proof.
  intros final.
  set (total := (Z.to_nat turns * length agent_list)%nat).
  destruct (state_after_agents create scenario turns agent_list w total)
    as (Hlen & _ & _ & Hh).
  destruct (generate_run_rounds create scenario turns agent_list w)
    as (Hagents & _). fold final in Hagents.
  assert (take total (schedule turns (length agent_list))
          = schedule turns (length agent_list)) as Htake
    by (apply take_ge; by rewrite schedule_length).
  unfold state_after in Hh. rewrite Htake in Hh, Hlen.
  rewrite <- Hagents in Hh.
  apply list_eq. intros i. rewrite !list_lookup_fmap.
  specialize (Hh i). fold final in Hh.
  destruct (agent_list !! i) as [a|] eqn:Ha.
  - destruct (agents final !! i) as [a'|]; [| done].
    simpl in *. injection Hh as ->. f_equal.
    rewrite length_app, length_fmap. f_equal.
    rewrite own_records_length by done.
    apply own_turns_schedule. by eapply lookup_lt_Some.
  - by destruct (agents final !! i).
Qed.

(** X4. The service is called once per turn and not otherwise: if every
    call of the client advances a counter of the service state by one, a run
    advances it by [turns * agentCount], and the run up to its [j]-th turn by
    [j]. *)
Theorem one_service_call_per_turn {W : Type} (create : client W)
    (calls : W → nat)
    (scenario : str) (turns : Z) (agent_list : list Agent) (w : W) (j : nat) :
  (∀ model temperature messages w0,
     calls (create model temperature messages w0).2 = S (calls w0)) →
  calls (world (state_after create scenario turns agent_list w j))
  = (calls w + j `min` (Z.to_nat turns * length agent_list))%nat
  ∧ calls (world (generate create scenario turns agent_list w))
    = (calls w + Z.to_nat turns * length agent_list)%nat.
Proof.
  intros Hcalls.
  assert (∀ l (st : run_state W),
            Forall (λ ti, (ti.2 < length (agents st))%nat) l →
            calls (world (run_turns create st l))
            = (calls (world st) + length l)%nat) as Hrun.
  { induction l as [|ti l IH]; intros st Hvalid; [simpl; lia |].
    apply Forall_cons in Hvalid as [Hti Hvalid].
    destruct (lookup_lt_is_Some_2 _ _ Hti) as [agent Hagent].
    rewrite run_turns_cons, IH by (by rewrite turn_body_length).
    rewrite (turn_body_unfold create _ _ _ _ Hagent). simpl.
    rewrite act_unfold. simpl. unfold call_llm, call_llm_with.
    specialize (Hcalls (py "qwen-plus") (3 # 10)%Q
                  (prompt_messages agent (global_context st)) (world st)).
    destruct (create _ _ _ _) as [[text | repr_e] w']; simpl in *; lia. }
  split.
  - unfold state_after. rewrite Hrun by apply Forall_take, schedule_valid.
    by rewrite length_take, schedule_length.
  - destruct (generate_run_rounds create scenario turns agent_list w)
      as (_ & _ & ->).
    rewrite Hrun by apply schedule_valid. by rewrite schedule_length.
Qed.

Lemma one_service_call_per_turn_witness :
  let agent_list :=
    build_agents_from_request no_files
      [trivial_config (py "A"); trivial_config (py "B")] in
  (∀ model temperature messages w0,
     id (counting_stub model temperature messages w0).2 = S (id w0))
  ∧ id (world (state_after counting_stub (py "s") 3 agent_list 0%nat 4))
    = (id 0 + 4 `min` (Z.to_nat 3 * length agent_list))%nat
  ∧ id (world (generate counting_stub (py "s") 3 agent_list 0%nat))
    = (id 0 + Z.to_nat 3 * length agent_list)%nat.
Proof.
  intros agent_list.
  assert (∀ model temperature messages w0,
            id (counting_stub model temperature messages w0).2 = S (id w0))
    as H1 by reflexivity.
  split; [exact H1 |].
  exact (one_service_call_per_turn counting_stub id (py "s") 3 agent_list
           0%nat 4 H1).
Defined.

(** ** More on keyword retrieval *)

Lemma fmap_slice_to {A B} (f : A → B) (l : list A) (k : Z) :
  f <$> slice_to l k = slice_to (f <$> l) k.
Proof. unfold slice_to. rewrite length_fmap. destruct (0 <=? k); apply fmap_take. Qed.

Lemma slice_to_take {A} (l : list A) (k : Z) :
  ∃ n, slice_to l k = take n l.
Proof. unfold slice_to. destruct (0 <=? k); eauto. Qed.

(** What [simple_keyword_retrieval] computes, for any [top_k]. *)
Lemma retrieval_cases_any (docs : list str) (query : str) (top_k : Z) :
  let s := score_of (list_to_set (split query)) in
  simple_keyword_retrieval docs query top_k
  = if bool_decide (docs = [] ∨ query = []) then []
    else if bool_decide (filter (λ d, 0 < s d) docs = []) then
      slice_to docs top_k
    else slice_to (sort_desc s (filter (λ d, 0 < s d) docs)) top_k.
Proof.
  intros s. unfold simple_keyword_retrieval.
  destruct docs as [|d0 docs]; [done |].
  destruct query as [|c query]; [done |].
  rewrite bool_decide_true by done. simpl negb. simpl orb. cbv iota.
  rewrite (bool_decide_false (_ ∨ _)) by (intros [|]; done).
  rewrite score_docs_filter. fold s.
  destruct (filter (λ d, 0 < s d) (d0 :: docs)) as [|d1 l] eqn:E.
  - done.
  - rewrite (bool_decide_false (_ <$> _ = [])) by done.
    rewrite (bool_decide_false (d1 :: l = [])) by done.
    by rewrite fmap_slice_to, sort_desc_decorated.
Qed.

(** X5. Whatever the query and [top_k], negative values included, the
    documents that [simple_keyword_retrieval] returns are documents of the
    list, none more often than the list has it: the result is a
    rearrangement of a part of the document list. *)
Theorem retrieval_returns_documents_of_the_list
    (docs : list str) (query : str) (top_k : Z) :
  simple_keyword_retrieval docs query top_k ⊆+ docs.
Proof.
  rewrite retrieval_cases_any.
  set (s := score_of (list_to_set (split query))).
  case_bool_decide; [apply submseteq_nil_l |].
  case_bool_decide.
  - destruct (slice_to_take docs top_k) as [n ->]. apply submseteq_take.
  - destruct (slice_to_take (sort_desc s (filter (λ d, 0 < s d) docs)) top_k)
      as [n ->].
    etransitivity; [apply submseteq_take |].
    rewrite sort_desc_perm. apply sublist_submseteq, sublist_filter.
Qed.

Lemma slice_to_all {A} (l : list A) (n : nat) :
  (length l ≤ n)%nat → slice_to l (Z.of_nat n) = l.
Proof.
  intros Hn. unfold slice_to. destruct (Z.leb_spec 0 (Z.of_nat n)); [| lia].
  rewrite Nat2Z.id. by apply take_ge.
Qed.

(** X6. [top_k] only cuts the ranking: for every [top_k] the result is the
    Python slice [[:top_k]] of the result for [top_k = len(docs)], which is
    the whole ranking; so a negative [top_k] drops that many documents from
    its end, and of two non-negative values the smaller gives a prefix of
    what the larger gives. *)
Theorem retrieval_top_k_only_cuts (docs : list str) (query : str) :
  let ranking :=
    simple_keyword_retrieval docs query (Z.of_nat (length docs)) in
  (∀ top_k,
     simple_keyword_retrieval docs query top_k = slice_to ranking top_k)
  ∧ (∀ k1 k2, 0 ≤ k1 ≤ k2 →
       simple_keyword_retrieval docs query k1
       `prefix_of` simple_keyword_retrieval docs query k2)
  ∧ (∀ top_k, top_k < 0 →
       simple_keyword_retrieval docs query top_k
       = take (length ranking - Z.to_nat (- top_k)) ranking).
Proof.
  intros ranking.
  assert (∀ top_k,
            simple_keyword_retrieval docs query top_k = slice_to ranking top_k)
    as Hcut.
  { intros top_k. unfold ranking. rewrite !retrieval_cases_any.
    set (s := score_of (list_to_set (split query))).
    case_bool_decide; [by destruct (slice_to_take (@nil (list N)) top_k) as [[|?] ->] |].
    case_bool_decide.
    - by rewrite slice_to_all.
    - rewrite slice_to_all; [done |].
      rewrite sort_desc_perm. apply length_filter. }
  split_and!; [done | |].
  - intros k1 k2 Hk. rewrite (Hcut k1), (Hcut k2).
    rewrite !slice_to_nonneg by lia.
    replace (Z.to_nat k1) with (Z.to_nat k1 `min` Z.to_nat k2)%nat by lia.
    rewrite <- take_take. apply prefix_take.
  - intros top_k Hneg. rewrite Hcut. unfold slice_to.
    destruct (Z.leb_spec 0 top_k); [lia | done].
Qed.

Lemma retrieval_top_k_only_cuts_witness :
  let docs := [py "a b c"; py "xx b"; py "zzz"; py "c b a"] in
  let query := py "a  b q" in
  0 ≤ 1 ≤ 2
  ∧ simple_keyword_retrieval docs query 1
    `prefix_of` simple_keyword_retrieval docs query 2
  ∧ -1 < 0
  ∧ simple_keyword_retrieval docs query (-1) = [py "a b c"; py "c b a"].
Proof.
  intros docs query.
  destruct (retrieval_top_k_only_cuts docs query) as (_ & Hprefix & Hneg).
  assert (0 ≤ 1 ≤ 2) as H1 by lia.
  assert (-1 < 0) as H2 by lia.
  split; [exact H1 |]. split; [exact (Hprefix 1 2 H1) |].
  split; [exact H2 |]. rewrite (Hneg (-1) H2). by vm_compute.
Defined.

(** X7. Only the set of the tokens of a query counts, not their order, their
    repetition or the whitespace between them: two non-empty queries with the
    same tokens get the same result. *)
Theorem retrieval_depends_on_token_set
    (docs : list str) (query1 query2 : str) (top_k : Z) :
  query1 ≠ [] → query2 ≠ [] →
  (∀ t, t ∈ split query1 ↔ t ∈ split query2) →
  simple_keyword_retrieval docs query1 top_k
  = simple_keyword_retrieval docs query2 top_k.
Proof.
  intros Hq1 Hq2 Htokens.
  assert (list_to_set (C:=gset (list N)) (split query1)
          = list_to_set (split query2)) as Hset.
  { apply set_eq. intros t. by rewrite !elem_of_list_to_set. }
  rewrite !retrieval_cases_any, Hset.
  destruct docs as [|d docs]; [done |].
  rewrite (bool_decide_false (_ ∨ query1 = [])) by (intros [|]; done).
  rewrite (bool_decide_false (_ ∨ query2 = [])) by (intros [|]; done).
  done.
Qed.

Lemma retrieval_depends_on_token_set_witness :
  let docs := [py "a b c"; py "xx b"; py "zzz"] in
  let query1 := py "b a b" in
  let query2 := py " a
b " in
  query1 ≠ [] ∧ query2 ≠ []
  ∧ (∀ t, t ∈ split query1 ↔ t ∈ split query2)
  ∧ simple_keyword_retrieval docs query1 3
    = simple_keyword_retrieval docs query2 3.
Proof.
  intros docs query1 query2.
  assert (query1 ≠ []) as H1 by discriminate.
  assert (query2 ≠ []) as H2 by discriminate.
  assert (∀ t, t ∈ split query1 ↔ t ∈ split query2) as H3.
  { intros t. vm_compute split. rewrite !elem_of_cons, !elem_of_nil. tauto. }
  split; [exact H1 |]. split; [exact H2 |]. split; [exact H3 |].
  exact (retrieval_depends_on_token_set docs query1 query2 3 H1 H2 H3).
Defined.

Lemma sort_desc_nil_inv {A} (key : A → Z) (l : list A) :
  sort_desc key l = [] → l = [].
Proof.
  intros E. apply Permutation_nil_r. rewrite <- E. by rewrite sort_desc_perm.
Qed.

(** With a non-empty query and documents, three or fewer documents come
    back, and at least one. *)
Lemma retrieval_three_not_empty (docs : list str) (query : str) :
  docs ≠ [] → query ≠ [] →
  (1 ≤ length (simple_keyword_retrieval docs query 3) ≤ 3)%nat.
Proof.
  intros Hdocs Hquery. rewrite retrieval_cases by lia.
  set (s := score_of (list_to_set (split query))).
  rewrite bool_decide_false by (intros [|]; done).
  change (Z.to_nat 3) with 3%nat.
  case_bool_decide as Hnone.
  - rewrite length_take. destruct docs; [done | simpl length; lia].
  - rewrite length_take.
    destruct (sort_desc s (filter (λ d, 0 < s d) docs)) eqn:E;
      [by apply sort_desc_nil_inv in E | simpl length; lia].
Qed.

(** X8. The background material of a round is empty exactly when the agent
    has no document or the context is the empty string.  Otherwise it is the
    heading followed by the documents that the retrieval returns for the
    context with [top_k = 3], joined by the separator; these are at least one
    and at most three, also when no document matches the context. *)
Theorem background_material_of_a_round (self : Agent) (global_context : str) :
  (_retrieve_for_round self global_context = []
   ↔ docs self = [] ∨ global_context = [])
  ∧ (docs self ≠ [] → global_context ≠ [] →
     let top_docs := simple_keyword_retrieval (docs self) global_context 3 in
     _retrieve_for_round self global_context
     = material_heading ++ join material_separator top_docs
     ∧ (1 ≤ length top_docs ≤ 3)%nat).
Proof.
  assert (docs self ≠ [] → global_context ≠ [] →
          _retrieve_for_round self global_context
          = material_heading
              ++ join material_separator
                   (simple_keyword_retrieval (docs self) global_context 3)
          ∧ (1 ≤ length (simple_keyword_retrieval (docs self)
                            global_context 3) ≤ 3)%nat) as Hsome.
  { intros Hdocs Hctx.
    pose proof (retrieval_three_not_empty _ _ Hdocs Hctx) as Hlen.
    split; [| done]. unfold _retrieve_for_round.
    rewrite bool_decide_true by done. cbn [negb]. cbv zeta.
    destruct (simple_keyword_retrieval (docs self) global_context 3)
      as [|d l] eqn:E; [simpl in Hlen; lia |].
    rewrite (bool_decide_true (d :: l ≠ [])) by done. cbn [negb].
    unfold material_heading, material_separator. reflexivity. }
  split; [| done]. split.
  - intros Hempty.
    destruct (decide (docs self = [])) as [| Hdocs]; [by left |].
    destruct (decide (global_context = [])) as [| Hctx]; [by right |].
    destruct (Hsome Hdocs Hctx) as [E _]. rewrite E in Hempty.
    assert (∃ c rest, material_heading = c :: rest) as (c & rest & Hhead)
      by (vm_compute; eauto).
    by rewrite Hhead in Hempty.
  - intros [Hdocs | ->]; unfold _retrieve_for_round.
    + by rewrite Hdocs.
    + rewrite retrieval_cases by lia.
      rewrite (bool_decide_true (_ ∨ _)) by auto.
      rewrite (bool_decide_false ([] ≠ [])) by (intros H; by apply H).
      by destruct (negb (bool_decide (docs self ≠ []))).
Qed.

Lemma background_material_of_a_round_witness :
  let self :=
    {| config := config_of (trivial_config (py "A")); history := [];
       docs := [py "a"; py "b"; py "c"; py "d"] |} in
  let global_context := py "q" in
  docs self ≠ [] ∧ global_context ≠ []
  ∧ (let top_docs := simple_keyword_retrieval (docs self) global_context 3 in
     _retrieve_for_round self global_context
     = material_heading ++ join material_separator top_docs
     ∧ (1 ≤ length top_docs ≤ 3)%nat)
  ∧ simple_keyword_retrieval (docs self) global_context 3
    = [py "a"; py "b"; py "c"].
Proof.
  intros self global_context.
  assert (docs self ≠ []) as H1 by discriminate.
  assert (global_context ≠ []) as H2 by discriminate.
  split; [exact H1 |]. split; [exact H2 |].
  split; [| by vm_compute].
  exact (proj2 (background_material_of_a_round self global_context) H1 H2).
Defined.

(** ** More on the knowledge base *)


(** ** More on the knowledge base *)

Lemma tagged_not_empty (tag rest : str) :
  (∃ c r, tag = c :: r) → tag ++ rest ≠ [].
Proof. by intros (c & r & ->). Qed.

Lemma document_of_tagged (root : str) (file : str * read_result) (d : str) :
  document_of root file = Some d →
  d ≠ [] ∧ ((∃ rest, d = file_tag ++ rest) ∨ (∃ rest, d = failure_tag ++ rest)).
Proof.
  unfold document_of. destruct file.2 as [raw | str_e].
  - destruct (truthy (strip raw)); [| done].
    intros Hd. apply (inj Some) in Hd. subst d. split.
    + apply tagged_not_empty. vm_compute. eauto.
    + left. unfold file_tag. eauto.
  - intros Hd. apply (inj Some) in Hd. subst d. split.
    + apply tagged_not_empty. vm_compute. eauto.
    + right. unfold failure_tag. eauto.
Qed.

(** X9. The knowledge base of an agent never holds an empty document: the
    inline knowledge is taken only if it is not empty, and every document of
    the folder starts with the file tag or with the failure tag. *)
Theorem knowledge_base_has_no_empty_document
    (fs : FileSystem) (cfg : AgentConfig) (folder_path : str) :
  Forall (λ d, d ≠ []) (docs (Agent_init fs cfg))
  ∧ Forall (λ d, d ≠ []
                 ∧ ((∃ rest, d = file_tag ++ rest)
                    ∨ (∃ rest, d = failure_tag ++ rest)))
           (load_text_files_from_folder fs folder_path).
Proof.
  assert (∀ path,
            Forall (λ d, d ≠ []
                         ∧ ((∃ rest, d = file_tag ++ rest)
                            ∨ (∃ rest, d = failure_tag ++ rest)))
                   (load_text_files_from_folder fs path)) as Hload.
  { intros path. rewrite load_text_files_spec.
    destruct (truthy path && isdir fs (expanduser fs path)); [| constructor].
    apply Forall_forall. intros d (rf & _ & Hd)%list_elem_of_omap.
    by eapply document_of_tagged. }
  split; [| apply Hload].
  unfold Agent_init. cbn [docs].
  destruct (truthy (knowledge cfg)) eqn:Hk;
    destruct (bool_decide (knowledge_mode cfg = py "folder")
              && truthy (knowledge_folder cfg));
    rewrite ?app_nil_l; repeat apply Forall_app_2; repeat apply Forall_cons_2;
    try apply Forall_nil_2;
    try (by apply truthy_true);
    (eapply Forall_impl; [apply Hload | by intros d [? _]]).
Qed.

(** X10. Unless the knowledge mode is [folder] and a folder path is given,
    building an agent never looks at the file system: the agent is the same
    on every file system and its knowledge base is the inline knowledge
    alone.  A request entry without [knowledge_mode] is such a case,
    whatever [knowledge_folder] it gives. *)
Theorem inline_mode_never_reads_files (fs1 fs2 : FileSystem) :
  (∀ cfg : AgentConfig,
     knowledge_mode cfg ≠ py "folder" ∨ knowledge_folder cfg = [] →
     Agent_init fs1 cfg = Agent_init fs2 cfg
     ∧ docs (Agent_init fs1 cfg)
       = if truthy (knowledge cfg) then [knowledge cfg] else [])
  ∧ (∀ a : gmap (list N) (list N),
       a !! py "knowledge_mode" = None →
       Agent_init fs1 (config_of a) = Agent_init fs2 (config_of a)
       ∧ docs (Agent_init fs1 (config_of a))
         = if truthy (dict_get a (py "knowledge") [])
           then [dict_get a (py "knowledge") []] else []).
Proof.
  assert (∀ cfg : AgentConfig,
            knowledge_mode cfg ≠ py "folder" ∨ knowledge_folder cfg = [] →
            Agent_init fs1 cfg = Agent_init fs2 cfg
            ∧ docs (Agent_init fs1 cfg)
              = if truthy (knowledge cfg) then [knowledge cfg] else [])
    as Hinline.
  { intros cfg Hcfg.
    assert (bool_decide (knowledge_mode cfg = py "folder")
            && truthy (knowledge_folder cfg) = false) as Hc.
    { destruct Hcfg as [Hmode | ->];
        [by rewrite bool_decide_false | by rewrite andb_false_r]. }
    unfold Agent_init. rewrite Hc. cbn [docs]. split; [done |].
    by destruct (truthy (knowledge cfg)). }
  split; [exact Hinline |].
  intros a Hmode. apply (Hinline (config_of a)). left.
  unfold config_of, dict_get. cbn [knowledge_mode]. rewrite Hmode.
  by vm_compute.
Qed.

Lemma inline_mode_never_reads_files_witness :
  let kb := Folder [(py "a.txt", File (ReadText (py "alpha")))] in
  let fs :=
    {| expanduser := λ path, path;
       resolve := λ path, if bool_decide (path = py "kb") then Some kb else None |} in
  let a : gmap (list N) (list N) :=
    {[ py "name" := py "A"; py "knowledge" := py "inline text";
       py "knowledge_folder" := py "kb" ]} in
  a !! py "knowledge_mode" = None
  ∧ docs (Agent_init fs (config_of a)) = [py "inline text"]
  ∧ Agent_init fs (config_of a) = Agent_init no_files (config_of a).
Proof.
  intros kb fs a.
  assert (a !! py "knowledge_mode" = None) as H1 by (by vm_compute).
  split; [exact H1 |].
  destruct (inline_mode_never_reads_files fs no_files) as [_ Hrequest].
  destruct (Hrequest a H1) as [Hsame Hdocs].
  split; [| exact Hsame]. rewrite Hdocs. by vm_compute.
Defined.

(** ** More on text *)

Lemma lstrip_idemp (s : str) : lstrip (lstrip s) = lstrip s.
Proof.
  induction s as [|c s IH]; [done |]. simpl.
  destruct (isspace c) eqn:E; [exact IH | simpl; by rewrite E].
Qed.

Lemma lstrip_head (s : str) :
  lstrip s = [] ∨ ∃ c r, lstrip s = c :: r ∧ isspace c = false.
Proof.
  induction s as [|c s IH]; [by left |]. simpl.
  destruct (isspace c) eqn:E; [exact IH | right; eauto].
Qed.

Lemma lstrip_suffix (s : str) :
  ∃ ws, s = ws ++ lstrip s ∧ Forall (λ c, isspace c = true) ws.
Proof.
  induction s as [|c s (ws & Hs & Hws)]; [by exists [] |]. simpl.
  destruct (isspace c) eqn:E.
  - exists (c :: ws). split; [simpl; by f_equal | by constructor].
  - by exists [].
Qed.

Lemma lstrip_blank (s : str) :
  Forall (λ c, isspace c = true) s → lstrip s = [].
Proof. induction 1 as [|c s Hc _ IH]; [done |]. simpl. by rewrite Hc. Qed.

Lemma rstrip_prefix (t : str) :
  ∃ ws, t = rstrip t ++ ws ∧ Forall (λ c, isspace c = true) ws.
Proof.
  destruct (lstrip_suffix (rev t)) as (ws & Ht & Hws).
  exists (rev ws). split; [| by apply Forall_rev].
  unfold rstrip. rewrite <- rev_app_distr, <- Ht. by rewrite rev_involutive.
Qed.

Lemma rstrip_idemp (t : str) : rstrip (rstrip t) = rstrip t.
Proof. unfold rstrip. by rewrite rev_involutive, lstrip_idemp. Qed.

Lemma rstrip_keeps_head (c : N) (r : str) :
  isspace c = false → ∃ r', rstrip (c :: r) = c :: r'.
Proof.
  intros Hc. destruct (rstrip_prefix (c :: r)) as (ws & Ht & Hws).
  destruct (rstrip (c :: r)) as [|c' r'].
  - simpl in Ht. subst ws. apply Forall_cons in Hws as [Hc' _]. congruence.
  - injection Ht as -> _. eauto.
Qed.

(** Stripping a stripped string changes nothing. *)
Lemma strip_idemp (s : str) : strip (strip s) = strip s.
Proof.
  unfold strip. destruct (lstrip_head s) as [-> | (c & r & -> & Hc)]; [done |].
  destruct (rstrip_keeps_head c r Hc) as [r' Hr]. rewrite Hr.
  assert (lstrip (c :: r') = c :: r') as -> by (simpl; by rewrite Hc).
  rewrite <- Hr. apply rstrip_idemp.
Qed.

Lemma strip_blank (s : str) :
  Forall (λ c, isspace c = true) s → strip s = [].
Proof. intros Hs. unfold strip. by rewrite lstrip_blank. Qed.

(** X11. The agents built from a request are new and named: the name of
    each is not empty and has no whitespace at its ends (it is its own
    stripped form), the short name is the name, the history is empty; and
    there are no more agents than request entries. *)
Theorem built_agents_are_named_and_new
    (fs : FileSystem) (agents_data : list (gmap (list N) (list N))) :
  Forall (λ a, name (config a) ≠ []
               ∧ strip (name (config a)) = name (config a)
               ∧ short_name (config a) = name (config a)
               ∧ history a = [])
         (build_agents_from_request fs agents_data)
  ∧ (length (build_agents_from_request fs agents_data) ≤ length agents_data)%nat.
Proof.
  rewrite build_agents_valid. split.
  - apply Forall_fmap, Forall_forall.
    intros a [Hvalid _]%list_elem_of_filter.
    unfold valid_config in Hvalid. apply truthy_true in Hvalid.
    unfold compose, Agent_init, config_of. cbn [config name short_name history].
    split_and!; [done | apply strip_idemp | done | done].
  - rewrite length_fmap. apply length_filter.
Qed.

(** ** The scenario *)

(** X12. [simulate_stream] runs [generate] on the stripped scenario of the
    request.  Every global context of that run starts with the scenario
    label, so it is never the empty string; and when the request gives no
    scenario, or one that is empty or consists of whitespace, the run is the
    run on the empty scenario and its first context is the placeholder
    line. *)
Theorem global_context_starts_with_label {W : Type} (create : client W)
    (fs : FileSystem) (data : request) (w : W) (j : nat) :
  let agent_list :=
    build_agents_from_request fs (default [] (req_agents data)) in
  let turns := default 3 (req_turns data) in
  let scenario := strip (default [] (req_scenario data)) in
  agent_list ≠ [] →
  simulate_stream create fs data w
  = (Streamed (yielded (generate create scenario turns agent_list w)),
     world (generate create scenario turns agent_list w))
  ∧ (∃ rest,
       global_context (state_after create scenario turns agent_list w j)
       = py "场景描述：" ++ rest)
  ∧ global_context (state_after create scenario turns agent_list w j) ≠ []
  ∧ (req_scenario data = None
     ∨ (∃ raw, req_scenario data = Some raw
               ∧ Forall (λ c, isspace c = true) raw) →
     simulate_stream create fs data w
     = (Streamed (yielded (generate create [] turns agent_list w)),
        world (generate create [] turns agent_list w))
     ∧ global_context (state_after create [] turns agent_list w 0)
       = py "场景描述：无（前端未提供）").
Proof.
  intros agent_list turns scenario Hagents.
  assert (simulate_stream create fs data w
          = (Streamed (yielded (generate create scenario turns agent_list w)),
             world (generate create scenario turns agent_list w))) as Hrun
    by (by rewrite simulate_stream_runs).
  assert (∃ rest,
            global_context (state_after create scenario turns agent_list w j)
            = py "场景描述：" ++ rest) as (rest & Hrest).
  { destruct (state_after_log create scenario turns agent_list w j)
      as (_ & -> & _).
    unfold scenario_line. destruct (truthy scenario).
    - eexists. by rewrite <- app_assoc.
    - assert (py "场景描述：无（前端未提供）"
              = py "场景描述：" ++ py "无（前端未提供）") as ->
        by (by vm_compute).
      eexists. by rewrite <- app_assoc. }
  split_and!.
  - exact Hrun.
  - eauto.
  - rewrite Hrest. apply tagged_not_empty. vm_compute. eauto.
  - intros Hblank.
    assert (scenario = []) as Hempty.
    { unfold scenario. destruct Hblank as [-> | (raw & -> & Hraw)].
      - reflexivity.
      - by apply strip_blank. }
    rewrite Hempty in Hrun. split; [exact Hrun |].
    unfold state_after. rewrite take_0.
    unfold run_turns, initial_state. cbn [foldl global_context].
    unfold scenario_line. cbn [truthy]. reflexivity.
Qed.

Lemma global_context_starts_with_label_witness :
  let data :=
    {| req_scenario := Some (py " 
 "); req_turns := Some 1;
       req_agents := Some [trivial_config (py "A")] |} in
  let agent_list :=
    build_agents_from_request no_files (default [] (req_agents data)) in
  agent_list ≠ []
  ∧ (req_scenario data = None
     ∨ (∃ raw, req_scenario data = Some raw
               ∧ Forall (λ c, isspace c = true) raw))
  ∧ simulate_stream counting_stub no_files data 0%nat
    = (Streamed (yielded (generate counting_stub [] (default 3 (req_turns data))
                            agent_list 0%nat)),
       world (generate counting_stub [] (default 3 (req_turns data))
                agent_list 0%nat))
  ∧ global_context
      (state_after counting_stub [] (default 3 (req_turns data)) agent_list
         0%nat 0)
    = py "场景描述：无（前端未提供）".
Proof.
  intros data agent_list.
  assert (agent_list ≠ []) as H1 by (vm_compute; discriminate).
  assert (req_scenario data = None
          ∨ (∃ raw, req_scenario data = Some raw
                    ∧ Forall (λ c, isspace c = true) raw)) as H2.
  { right. exists (py " 
 "). split; [reflexivity | repeat constructor]. }
  split; [exact H1 |]. split; [exact H2 |].
  destruct (global_context_starts_with_label counting_stub no_files data
              0%nat 0 H1) as (_ & _ & _ & Hblank).
  exact (Hblank H2).
Defined.

(** ** Which files the loader reads *)

Lemma splitext_from_cons (seen : bool) (ext : option (list N)) (c : N)
    (p : str) :
  splitext_from seen ext (c :: p)
  = if (c =? 0x2F)%N then splitext_from false None p
    else if (c =? 0x2E)%N then
      splitext_from seen (if seen then Some [c] else ext) p
    else splitext_from true ((λ e, e ++ [c]) <$> ext) p.
Proof. done. Qed.

(** After the last dot of a name: what is read is added to the extension. *)
Lemma splitext_no_dot (rest : str) :
  ∀ seen ext,
    Forall (λ c, c ≠ 0x2E%N ∧ c ≠ 0x2F%N) rest →
    splitext_from seen ext rest = default [] ((λ e, e ++ rest) <$> ext).
Proof.
  induction rest as [|c rest IH]; intros seen ext Hrest.
  - destruct ext; simpl; by rewrite ?app_nil_r.
  - apply Forall_cons in Hrest as [[Hdot Hslash] Hrest].
    rewrite splitext_from_cons.
    rewrite (proj2 (N.eqb_neq c 0x2F)) by done.
    rewrite (proj2 (N.eqb_neq c 0x2E)) by done.
    rewrite IH by done. destruct ext; simpl; [by rewrite <- app_assoc | done].
Qed.

(** Up to the last dot of a name without slash: the dot starts the
    extension if a character other than a dot comes before it. *)
Lemma splitext_stem (stem rest : str) :
  ∀ seen ext,
    Forall (λ c, c ≠ 0x2F%N) stem →
    Forall (λ c, c ≠ 0x2E%N ∧ c ≠ 0x2F%N) rest →
    splitext_from seen ext (stem ++ 0x2E%N :: rest)
    = if seen || bool_decide (Exists (λ c, c ≠ 0x2E%N) stem)
      then 0x2E%N :: rest
      else default [] ((λ e, e ++ rest) <$> ext).
Proof.
  induction stem as [|c stem IH]; intros seen ext Hstem Hrest.
  - rewrite app_nil_l, splitext_from_cons.
    change (0x2E =? 0x2F)%N with false. change (0x2E =? 0x2E)%N with true.
    cbv iota. rewrite splitext_no_dot by done.
    rewrite (bool_decide_false (Exists _ [])) by (by intros ?%Exists_nil).
    by destruct seen.
  - apply Forall_cons in Hstem as [Hslash Hstem].
    rewrite <- app_comm_cons, splitext_from_cons.
    rewrite (proj2 (N.eqb_neq c 0x2F)) by done.
    destruct (N.eqb_spec c 0x2E) as [-> | Hdot].
    + rewrite IH by done.
      rewrite (bool_decide_ext (Exists (λ c, c ≠ 0x2E%N) (0x2E%N :: stem))
                 (Exists (λ c, c ≠ 0x2E%N) stem)).
      * by destruct seen.
      * rewrite Exists_cons. tauto.
    + rewrite IH by done. cbn [orb].
      rewrite (bool_decide_true (Exists _ (c :: stem)))
        by (by apply Exists_cons_hd).
      by rewrite orb_true_r.
Qed.

Lemma last_dot (p : str) :
  Forall (λ c, c ≠ 0x2E%N) p
  ∨ ∃ stem rest, p = stem ++ 0x2E%N :: rest ∧ Forall (λ c, c ≠ 0x2E%N) rest.
Proof.
  induction p as [|c p [Hnone | (stem & rest & -> & Hrest)]].
  - left. constructor.
  - destruct (decide (c = 0x2E%N)) as [-> | Hc].
    + right. by exists [], p.
    + left. by constructor.
  - right. by exists (c :: stem), rest.
Qed.

(** The extension of a name without slash: empty, or from the last dot on,
    and then a character other than a dot comes before that dot. *)
Lemma splitext_ext_cases (fname : str) :
  Forall (λ c, c ≠ 0x2F%N) fname →
  splitext_ext fname = []
  ∨ ∃ stem rest,
      fname = stem ++ 0x2E%N :: rest
      ∧ splitext_ext fname = 0x2E%N :: rest
      ∧ Exists (λ c, c ≠ 0x2E%N) stem.
Proof.
  intros Hslash. unfold splitext_ext.
  destruct (last_dot fname) as [Hnone | (stem & rest & -> & Hrest)].
  - left. rewrite splitext_no_dot; [done |].
    apply Forall_forall. intros c Hc. split.
    + by apply (proj1 (Forall_forall _ _) Hnone).
    + by apply (proj1 (Forall_forall _ _) Hslash).
  - apply Forall_app in Hslash as [Hstem Hslash].
    apply Forall_cons in Hslash as [_ Hslash].
    rewrite splitext_stem; [| done |].
    + cbn [orb]. case_bool_decide as Hstemdot; [| by left].
      right. by exists stem, rest.
    + apply Forall_forall. intros c Hc. split.
      * by apply (proj1 (Forall_forall _ _) Hrest).
      * by apply (proj1 (Forall_forall _ _) Hslash).
Qed.

Lemma lower_char_fixes (c x : N) :
  x = 0x2E%N ∨ x = 0x2F%N → lower_char c = x → c = x.
Proof.
  intros Hx. unfold lower_char.
  destruct ((0x41 <=? c) && (c <=? 0x5A))%N eqn:E; [| done].
  apply andb_true_iff in E as [Hlo%N.leb_le Hhi%N.leb_le]. lia.
Qed.

Lemma exts_elem (e : str) :
  e ∈ exts ↔ e = py ".txt" ∨ e = py ".md" ∨ e = py ".log".
Proof. unfold exts. rewrite !elem_of_cons, elem_of_nil. tauto. Qed.

(** A string whose lower-case form is a recognized extension is a dot
    followed by characters that are neither dots nor slashes. *)
Lemma recognized_extension_shape (e : str) :
  lower e ∈ exts →
  ∃ rest, e = 0x2E%N :: rest ∧ Forall (λ c, c ≠ 0x2E%N ∧ c ≠ 0x2F%N) rest.
Proof.
  intros He.
  assert (∃ letters,
            lower e = 0x2E%N :: letters
            ∧ Forall (λ c, c ≠ 0x2E%N ∧ c ≠ 0x2F%N) letters)
    as (letters & Hlower & Hletters).
  { apply exts_elem in He as [-> | [-> | ->]]; vm_compute; eexists;
      (split; [reflexivity |]); repeat (constructor; [by split |]);
      constructor. }
  destruct e as [|c rest]; [done |]. unfold lower in Hlower. csimpl in Hlower.
  injection Hlower as Hc Hrest.
  apply (lower_char_fixes c 0x2E) in Hc as ->; [| by left].
  exists rest. split; [done |]. subst letters.
  apply Forall_fmap in Hletters.
  eapply Forall_impl; [exact Hletters |]. simpl. intros x [Hdot Hslash].
  split; intros ->; [by apply Hdot | by apply Hslash].
Qed.

(** X13. Which files the loader reads.  A file name (it holds no slash) is
    read exactly when it ends with [.txt], [.md] or [.log] in any letter
    case and a character other than a dot comes before that ending: neither
    [.txt] itself nor [..md] is read, [a.TXT] is. *)
Theorem loader_reads_by_extension (fname : str) :
  Forall (λ c, c ≠ 0x2F%N) fname →
  in_exts (lower (splitext_ext fname)) = true
  ↔ ∃ stem ext,
      fname = stem ++ ext
      ∧ lower ext ∈ exts
      ∧ Exists (λ c, c ≠ 0x2E%N) stem.
Proof.
  intros Hslash. unfold in_exts. rewrite bool_decide_eq_true. split.
  - intros Hrecognized.
    destruct (splitext_ext_cases fname Hslash)
      as [Hnone | (stem & rest & Hname & Hext & Hstem)].
    + rewrite Hnone in Hrecognized.
      apply exts_elem in Hrecognized as [H | [H | H]]; by vm_compute in H.
    + exists stem, (0x2E%N :: rest). by rewrite Hext in Hrecognized.
  - intros (stem & ext & -> & Hext & Hstem).
    destruct (recognized_extension_shape ext Hext) as (rest & -> & Hrest).
    apply Forall_app in Hslash as [Hslash _].
    unfold splitext_ext. rewrite splitext_stem by done.
    cbn [orb]. by rewrite bool_decide_true.
Qed.

Lemma loader_reads_by_extension_witness :
  Forall (λ c, c ≠ 0x2F%N) (py "notes.v2.TXT")
  ∧ (∃ stem ext,
       py "notes.v2.TXT" = stem ++ ext
       ∧ lower ext ∈ exts
       ∧ Exists (λ c, c ≠ 0x2E%N) stem)
  ∧ in_exts (lower (splitext_ext (py "notes.v2.TXT"))) = true
  ∧ in_exts (lower (splitext_ext (py ".txt"))) = false.
Proof.
  assert (Forall (λ c, c ≠ 0x2F%N) (py "notes.v2.TXT")) as H1
    by (vm_compute; repeat (constructor; [done |]); constructor).
  assert (∃ stem ext,
            py "notes.v2.TXT" = stem ++ ext
            ∧ lower ext ∈ exts
            ∧ Exists (λ c, c ≠ 0x2E%N) stem) as H2.
  { exists (py "notes.v2"), (py ".TXT"). split_and!.
    - by vm_compute.
    - apply exts_elem. left. by vm_compute.
    - apply Exists_cons_hd. by vm_compute. }
  split; [exact H1 |]. split; [exact H2 |].
  split; [exact (proj2 (loader_reads_by_extension _ H1) H2) | by vm_compute].
Defined.

(** ** What the service is sent *)

Lemma system_prompt_of_config (a b : Agent) :
  config a = config b → _build_system_prompt a = _build_system_prompt b.
Proof. intros Hc. unfold _build_system_prompt. by rewrite Hc. Qed.

Lemma retrieve_of_docs (a b : Agent) (global_context : str) :
  docs a = docs b →
  _retrieve_for_round a global_context = _retrieve_for_round b global_context.
Proof. intros Hd. unfold _retrieve_for_round. by rewrite Hd. Qed.

(** X14. What the service is sent at a later call.  After any number of
    calls on a new agent, the next call sends the system prompt of the agent
    as it was built, then the replies of the earlier calls in their order,
    each tagged [assistant], then the request for the current context with
    the material retrieved from the knowledge base as it was built; and the
    reply of the call is what the service answers to this transcript. *)
Theorem transcript_of_a_later_call {W : Type} (create : client W)
    (fs : FileSystem) (cfg : AgentConfig) (contexts : list str) (w : W)
    (global_context : str) :
  let new := Agent_init fs cfg in
  let r := act_seq create new contexts w in
  let transcript :=
    [Message (py "system") (_build_system_prompt new)]
      ++ (Message (py "assistant") <$> r.1.1)
      ++ [Message (py "user")
            (user_content_of global_context
               (_retrieve_for_round new global_context))] in
  length transcript = (length contexts + 2)%nat
  ∧ (act create r.1.2 global_context r.2).1.1
    = (call_llm create transcript r.2).1
  ∧ (act create r.1.2 global_context r.2).2
    = (call_llm create transcript r.2).2.
Proof.
  intros new r transcript.
  destruct (act_seq_spec create contexts new w) as (Hh & Hlen & Hc & Hd).
  fold r in Hh, Hlen, Hc, Hd.
  assert (prompt_messages r.1.2 global_context = transcript) as Htranscript.
  { unfold prompt_messages, transcript.
    rewrite (system_prompt_of_config _ _ Hc),
      (retrieve_of_docs _ _ global_context Hd), Hh.
    done. }
  split_and!.
  - unfold transcript. rewrite !length_app, length_fmap, Hlen. simpl. lia.
  - by rewrite act_unfold, Htranscript.
  - by rewrite act_unfold, Htranscript.
Qed.

Lemma knowledge_base_has_no_empty_document_witness :
  let kb :=
    Folder [(py "a.txt", File (ReadText (py "alpha")));
            (py "b.md", File (ReadError (py "denied")));
            (py "c.log", File (ReadText (py " ")))] in
  let fs :=
    {| expanduser := λ path, path;
       resolve := λ path, if bool_decide (path = py "kb") then Some kb else None |} in
  let cfg :=
    {| name := py "A"; short_name := py "A"; role_description := [];
       strategic_preferences := []; knowledge := [];
       knowledge_mode := py "folder"; knowledge_folder := py "kb" |} in
  length (docs (Agent_init fs cfg)) = 2%nat
  ∧ Forall (λ d, d ≠ []) (docs (Agent_init fs cfg)).
Proof.
  intros kb fs cfg. split; [by vm_compute |].
  exact (proj1 (knowledge_base_has_no_empty_document fs cfg [])).
Defined.

Lemma built_agents_are_named_and_new_witness :
  let agents_data : list (gmap (list N) (list N)) :=
    [trivial_config (py "  Alice "); trivial_config (py " ");
     {[ py "role" := py "observer" ]}] in
  (name ∘ config <$> build_agents_from_request no_files agents_data)
  = [py "Alice"]
  ∧ Forall (λ a, name (config a) ≠ []
                 ∧ strip (name (config a)) = name (config a)
                 ∧ short_name (config a) = name (config a)
                 ∧ history a = [])
           (build_agents_from_request no_files agents_data).
Proof.
  intros agents_data. split; [by vm_compute |].
  exact (proj1 (built_agents_are_named_and_new no_files agents_data)).
Defined.
